(** * Kinematic trajectory optimisation (trajopt_kine.py)

    The script decides T+1 joint configurations q_0 .. q_T of a robot arm,
    minimising a smoothness cost plus a terminal tool-placement cost, under
    the constraint that q_0 is the robot's reference configuration.  It writes
    the problem with casadi's Opti stack, hands it to IpOpt, shows every
    iterate in a meshcat viewer and finally plays the trajectory.

    Embedding.
    - Numbers are Python floats in the script; they are modelled by the real
      numbers they approximate, so every statement below is about the exact
      arithmetic of the problem, not about rounding.
    - A configuration is a [list R]; Python ints are [Z], Python lists are
      lists, with Python's indexing (negative indices) and slicing.
    - casadi builds expression graphs: they are the inductive types [vexpr],
      [pexpr] and [sexpr], with an evaluator.
    - pinocchio (SE(3) algebra, forward kinematics of the loaded model) and the
      IpOpt run are collaborators outside the script: pinocchio is the class
      [Pinocchio], the solver run is a variable of the section.
    - The script mutates the Opti stack, pinocchio's data, the viewer and
      standard output: they are the fields of [World], passed explicitly.
    - casadi has a value for a decision variable only if the objective or a
      constraint depends on it, and it builds no product by the constant
      zero: [opti.value] and [opti.debug.value] raise on the decision vectors
      that a weight of zero has left out of the problem ([is_active]).

    The snippet generator of utils/generate.py, which cuts such scripts in
    the blocks a notebook loads, has its own part after the one-joint arm. *)

From Stdlib Require Import String.
From Stdlib Require Import Reals Lra List ZArith Lia Bool.
Import ListNotations.

Open Scope R_scope.

(** ** Python lists *)

Module Py.

(** [l[i]]: a negative index counts from the end; out of range raises. *)
Definition index {A : Type} (l : list A) (i : Z) : option A :=
  let n := Z.of_nat (length l) in
  if (0 <=? i)%Z then nth_error l (Z.to_nat i)
  else if (- n <=? i)%Z then nth_error l (Z.to_nat (n + i))
  else None.

(** [range(n)] *)
Definition range (n : Z) : list Z := map Z.of_nat (seq 0 (Z.to_nat n)).

(** [l[1:]] *)
Definition tail_slice {A : Type} (l : list A) : list A := skipn 1 l.

End Py.

(** ** Numeric vectors *)

Notation vec := (list R) (only parsing).

(** Elementwise [a - b] of two vectors of the same dimension. *)
Fixpoint vsub (a b : vec) : vec :=
  match a, b with
  | x :: a', y :: b' => (x - y) :: vsub a' b'
  | _, _ => []
  end.

(** [casadi.sumsqr]: the sum of the squares of the entries. *)
Fixpoint sumsqr (v : vec) : R :=
  match v with
  | [] => 0
  | x :: v' => x * x + sumsqr v'
  end.

(** ** pinocchio *)

(** A spatial motion, the value of [log6]; [.vector] lists the linear part
    then the angular part. *)
Record Motion := { linear : R * R * R; angular : R * R * R }.

Definition vector (m : Motion) : vec :=
  let '(lx, ly, lz) := linear m in
  let '(ax, ay, az) := angular m in
  [lx; ly; lz; ax; ay; az].

Definition zero6 : vec := [0; 0; 0; 0; 0; 0].

(** What the script uses of pinocchio and of the loaded robot model. *)
Class Pinocchio := {
  SE3 : Type;                          (* pin.SE3 *)
  SE3_identity : SE3;
  SE3_mul : SE3 -> SE3 -> SE3;         (* M1 * M2 *)
  SE3_inverse : SE3 -> SE3;            (* M.inverse() *)
  log6 : SE3 -> Motion;                (* pin.log6 *)
  nq : nat;                            (* model.nq *)
  getFrameId : string -> nat;          (* model.getFrameId *)
  frame_placement : vec -> nat -> SE3  (* placement of a frame at configuration q *)
}.

(** The algebra of placements: a group, on which the logarithm vanishes at the
    identity only. *)
Class PinocchioLaws (P : Pinocchio) : Prop := {
  SE3_mul_assoc : forall a b c : SE3, SE3_mul a (SE3_mul b c) = SE3_mul (SE3_mul a b) c;
  SE3_mul_1_l : forall a : SE3, SE3_mul SE3_identity a = a;
  SE3_mul_1_r : forall a : SE3, SE3_mul a SE3_identity = a;
  SE3_mul_inv_l : forall a : SE3, SE3_mul (SE3_inverse a) a = SE3_identity;
  SE3_mul_inv_r : forall a : SE3, SE3_mul a (SE3_inverse a) = SE3_identity;
  log6_zero : forall M : SE3, vector (log6 M) = zero6 <-> M = SE3_identity
}.

(** ** casadi expression graphs *)

Section Expressions.
Context {P : Pinocchio}.

(** Vector-valued and placement-valued expressions. *)
Inductive vexpr : Type :=
| Sym (name : string) (n : nat)                 (* casadi.SX.sym(name, n, 1) *)
| OptiVar (inst : nat) (i : nat) (n : nat)      (* i-th opti.variable(n) of an Opti *)
| VConst (v : vec)                              (* a numeric vector *)
| VSub (a b : vexpr)                            (* a - b *)
| Log6Vector (p : pexpr)                        (* cpin.log6(p).vector *)
| Call (fname input : string) (body arg : vexpr) (* f(arg), f a casadi.Function *)
with pexpr : Type :=
| OMf (q : vexpr) (frame : nat)                 (* cdata.oMf[frame] after forward kinematics at q *)
| PConst (M : SE3)                              (* cpin.SE3(M) *)
| PInverse (p : pexpr)                          (* p.inverse() *)
| PMul (a b : pexpr).                           (* a * b *)

(** Scalar expressions. *)
Inductive sexpr : Type :=
| SConst (r : R)
| SAdd (a b : sexpr)
| SMul (a b : sexpr)
| Sumsqr (v : vexpr).

(** Evaluation, at values [sym] of the free symbols and [x] of the decision
    variables ([x] lists them by index; the Opti instance plays no role). *)
Fixpoint veval (sym : string -> vec) (x : list vec) (e : vexpr) : vec :=
  match e with
  | Sym name _ => sym name
  | OptiVar _ i _ => nth i x []
  | VConst v => v
  | VSub a b => vsub (veval sym x a) (veval sym x b)
  | Log6Vector p => vector (log6 (peval sym x p))
  | Call _ input body arg =>
      let v := veval sym x arg in
      veval (fun s => if String.eqb s input then v else sym s) x body
  end
with peval (sym : string -> vec) (x : list vec) (p : pexpr) : SE3 :=
  match p with
  | OMf q frame => frame_placement (veval sym x q) frame
  | PConst M => M
  | PInverse p' => SE3_inverse (peval sym x p')
  | PMul a b => SE3_mul (peval sym x a) (peval sym x b)
  end.

Fixpoint seval (x : list vec) (e : sexpr) : R :=
  match e with
  | SConst r => r
  | SAdd a b => seval x a + seval x b
  | SMul a b => seval x a * seval x b
  | Sumsqr v => sumsqr (veval (fun _ => []) x v)
  end.

(** [casadi.Function(name, [input], [output])] *)
Record Function := { fname : string; finput : string; foutput : vexpr }.

Definition call (f : Function) (arg : vexpr) : vexpr :=
  Call (fname f) (finput f) (foutput f) arg.

(** The decision variables an expression depends on, by index. *)
Fixpoint vvars (e : vexpr) : list nat :=
  match e with
  | Sym _ _ => []
  | OptiVar _ i _ => [i]
  | VConst _ => []
  | VSub a b => vvars a ++ vvars b
  | Log6Vector p => pvars p
  | Call _ _ body arg => vvars body ++ vvars arg
  end
with pvars (p : pexpr) : list nat :=
  match p with
  | OMf q _ => vvars q
  | PConst _ => []
  | PInverse p' => pvars p'
  | PMul a b => pvars a ++ pvars b
  end.

(** The constant zero. *)
Definition is_zero (e : sexpr) : bool :=
  match e with
  | SConst r => if Req_dec_T r 0 then true else false
  | _ => false
  end.

(** The decision variables of a scalar expression.  casadi builds no product
    by the constant zero: it answers the constant zero, in which the other
    factor leaves no trace. *)
Fixpoint svars (e : sexpr) : list nat :=
  match e with
  | SConst _ => []
  | SAdd a b => svars a ++ svars b
  | SMul a b => if is_zero a || is_zero b then [] else svars a ++ svars b
  | Sumsqr v => vvars v
  end.

End Expressions.

(** ** The Opti stack *)

Section Opti.
Context {P : Pinocchio}.

Inductive constraint : Type :=
| CEq (lhs rhs : vexpr).                        (* lhs == rhs *)

(** The one callback the script registers,
    [lambda i: displayScene(opti.debug.value(var_qs[-1]))],
    kept as the list it closes over. *)
Inductive Callback : Type :=
| DisplayLastOf (var_qs : list vexpr).

Record Opti := {
  instance : nat;                 (* which Opti() this is *)
  variables : list nat;           (* the dimension of each decision variable *)
  constraints : list constraint;
  objective : option sexpr;
  solver_name : option string;
  on_iterate : option Callback;
  latest : list vec;              (* current value of each variable (opti.debug) *)
  solved : bool
}.

(** [casadi.Opti()] *)
Definition casadi_Opti (inst : nat) : Opti :=
  {| instance := inst; variables := []; constraints := []; objective := None;
     solver_name := None; on_iterate := None; latest := []; solved := false |}.

(** [opti.variable(n)]: a fresh symbol, whose initial guess is zero. *)
Definition Opti_variable (o : Opti) (n : nat) : Opti * vexpr :=
  ({| instance := instance o; variables := variables o ++ [n];
      constraints := constraints o; objective := objective o;
      solver_name := solver_name o; on_iterate := on_iterate o;
      latest := latest o ++ [repeat 0 n]; solved := solved o |},
   OptiVar (instance o) (length (variables o)) n).

(** [opti.subject_to(c)] *)
Definition Opti_subject_to (o : Opti) (c : constraint) : Opti :=
  {| instance := instance o; variables := variables o;
     constraints := constraints o ++ [c]; objective := objective o;
     solver_name := solver_name o; on_iterate := on_iterate o;
     latest := latest o; solved := solved o |}.

(** [opti.minimize(e)] *)
Definition Opti_minimize (o : Opti) (e : sexpr) : Opti :=
  {| instance := instance o; variables := variables o;
     constraints := constraints o; objective := Some e;
     solver_name := solver_name o; on_iterate := on_iterate o;
     latest := latest o; solved := solved o |}.

(** [opti.solver(name)] *)
Definition Opti_solver (o : Opti) (name : string) : Opti :=
  {| instance := instance o; variables := variables o;
     constraints := constraints o; objective := objective o;
     solver_name := Some name; on_iterate := on_iterate o;
     latest := latest o; solved := solved o |}.

(** [opti.callback(f)] *)
Definition Opti_callback (o : Opti) (f : Callback) : Opti :=
  {| instance := instance o; variables := variables o;
     constraints := constraints o; objective := objective o;
     solver_name := solver_name o; on_iterate := Some f;
     latest := latest o; solved := solved o |}.

(** The solver moves to the iterate [x]. *)
Definition set_latest (o : Opti) (x : list vec) : Opti :=
  {| instance := instance o; variables := variables o;
     constraints := constraints o; objective := objective o;
     solver_name := solver_name o; on_iterate := on_iterate o;
     latest := x; solved := solved o |}.

Definition mark_solved (o : Opti) : Opti :=
  {| instance := instance o; variables := variables o;
     constraints := constraints o; objective := objective o;
     solver_name := solver_name o; on_iterate := on_iterate o;
     latest := latest o; solved := true |}.

(** The decision variables that are part of the problem: those the objective
    and the constraints depend on. *)
Definition problem_vars (o : Opti) : list nat :=
  match objective o with
  | Some e => svars e
  | None => []
  end
  ++ flat_map (fun c => match c with CEq lhs rhs => vvars lhs ++ vvars rhs end)
              (constraints o).

Definition is_active (o : Opti) (i : nat) : bool :=
  existsb (Nat.eqb i) (problem_vars o).

(** [opti.debug.value(e)]: the value of [e] at the current iterate.  It
    raises when [e] depends on a decision variable that is not part of the
    problem. *)
Definition Opti_debug_value (o : Opti) (e : vexpr) : option vec :=
  if forallb (is_active o) (vvars e)
  then Some (veval (fun _ => []) (latest o) e)
  else None.

(** [opti.value(e)]: the same, but it raises also before a solve has
    returned. *)
Definition Opti_value (o : Opti) (e : vexpr) : option vec :=
  if solved o then Opti_debug_value o e else None.

(** [[opti.value(var_q) for var_q in var_qs]] *)
Fixpoint Opti_values (o : Opti) (var_qs : list vexpr) : option (list vec) :=
  match var_qs with
  | [] => Some []
  | var_q :: rest =>
      match Opti_value o var_q with
      | Some v => option_map (cons v) (Opti_values o rest)
      | None => None
      end
  end.

(** [[opti.debug.value(var_q) for var_q in var_qs]] *)
Fixpoint Opti_debug_values (o : Opti) (var_qs : list vexpr) : option (list vec) :=
  match var_qs with
  | [] => Some []
  | var_q :: rest =>
      match Opti_debug_value o var_q with
      | Some v => option_map (cons v) (Opti_debug_values o rest)
      | None => None
      end
  end.

(** *** The problem an Opti states *)

Definition holds (x : list vec) (c : constraint) : Prop :=
  match c with
  | CEq lhs rhs => veval (fun _ => []) x lhs = veval (fun _ => []) x rhs
  end.

(** [x] gives every decision variable a vector of its dimension and meets the
    constraints. *)
Definition feasible (o : Opti) (x : list vec) : Prop :=
  map (@length R) x = variables o /\ Forall (holds x) (constraints o).

Definition cost (o : Opti) (x : list vec) : R :=
  match objective o with
  | Some e => seval x e
  | None => 0
  end.

Definition minimizer (o : Opti) (x : list vec) : Prop :=
  feasible o x /\ forall y, feasible o y -> cost o x <= cost o y.

(** What a run of the solver does: the iterates it visits, the last of which
    is the point it stops at, and the exception it ends with, if any. *)
Record SolverRun := { iterates : list (list vec); failure : option string }.

End Opti.

(** ** A one-joint arm

    The smallest model of the interface: a slider.  A placement is a position
    on a line, composed by addition; the tool sits at the joint position; the
    logarithm of a placement is the translation to it. *)

Module Slider.

#[local] Instance P : Pinocchio := {|
  SE3 := R;
  SE3_identity := 0;
  SE3_mul := Rplus;
  SE3_inverse := Ropp;
  log6 := fun M => {| linear := (M, 0, 0); angular := (0, 0, 0) |};
  nq := 1;
  getFrameId := fun _ => 1%nat;
  frame_placement := fun q _ => nth 0 q 0
|}.

(** A solver run of two iterates that returns. *)
Definition returns (o : Opti) : SolverRun :=
  {| iterates := [[[0]; [1 / 4]; [1 / 2]]; [[0]; [1 / 2]; [1]]];
     failure := None |}.


End Slider.

(** ** The snippet generator (utils/generate.py)

    [generate] cuts the Python files of a folder in snippets, the blocks of
    lines between a [# %jupyter_snippet name] line and a
    [# %end_jupyter_snippet] line, writes each one to a file and loads it in
    the cells of a notebook that ask for it.

    A Python [str] is the list of its code points.  The folder, the paths
    and the notebook file belong to the file system: [generate] gets the
    files of the folder as the lines Python reads from them, and the cells of
    the notebook, and answers with the files it writes, what it prints and
    the cells it puts back in the notebook. *)

Notation str := (list N) (only parsing).

Module PyStr.

(** An ASCII literal as a [str]. *)
Definition text (s : string) : str :=
  map Ascii.N_of_ascii (list_ascii_of_string s).

(** The string that holds a line feed. *)
Definition newline : str := [10%N].

(** [c.isspace()], for one code point. *)
Definition isspace (c : N) : bool :=
  ((9 <=? c) && (c <=? 13) || (28 <=? c) && (c <=? 32)
   || (c =? 133) || (c =? 160) || (c =? 5760)
   || (8192 <=? c) && (c <=? 8202)
   || (c =? 8232) || (c =? 8233) || (c =? 8239) || (c =? 8287)
   || (c =? 12288))%N.

Definition eqb (a b : str) : bool :=
  if list_eq_dec N.eq_dec a b then true else false.

(** [s.startswith(p)] *)
Fixpoint startswith (s p : str) {struct p} : bool :=
  match p, s with
  | [], _ => true
  | a :: p', b :: s' => (a =? b)%N && startswith s' p'
  | _ :: _, [] => false
  end.

(** [s.endswith(p)] *)
Definition endswith (s p : str) : bool := startswith (rev s) (rev p).

(** [p in s] *)
Fixpoint contains (p s : str) : bool :=
  startswith s p ||
  match s with
  | [] => false
  | _ :: s' => contains p s'
  end.

Fixpoint lstrip (s : str) : str :=
  match s with
  | [] => []
  | c :: s' => if isspace c then lstrip s' else s
  end.

Definition rstrip (s : str) : str := rev (lstrip (rev s)).

(** [s.strip()] *)
Definition strip (s : str) : str := rstrip (lstrip s).

(** The words of [s] after the word [word] that is being read (its code
    points, last first). *)
Fixpoint words (s : str) (word : str) : list str :=
  match s with
  | [] => match word with [] => [] | _ :: _ => [rev word] end
  | c :: s' =>
      if isspace c then
        match word with
        | [] => words s' []
        | _ :: _ => rev word :: words s' []
        end
      else words s' (c :: word)
  end.

(** [s.split()] *)
Definition split (s : str) : list str := words s [].

(** ["".join(l)] *)
Definition join (l : list str) : str := concat l.

End PyStr.

Module Generate.

Import PyStr.

Section Notebook.

(** What a cell holds beside its source. *)
Variable Meta : Type.

(** [str(generated / name)], the path of a file of the folder [generated]. *)
Variable generated : str -> str.

Record Cell := { source : list str; meta : Meta }.

(** A file of the folder: [str(filename)], [filename.stem] and its lines. *)
Record File := { path : str; stem : str; lines : list str }.

Inductive Exception : Type :=
| SyntaxError (msg : str) (line : nat)   (* the message ends with the line number *)
| IndexError.

Definition hashtags : list str := [text "jupyter_snippet"].

(** [any([f"# %{hashtag}" in line for hashtag in hashtags])] *)
Definition is_open (line : str) : bool :=
  existsb (fun hashtag => contains (text "# %" ++ hashtag) line) hashtags.

(** [any([line.strip() == f"# %end_{hashtag}" for hashtag in hashtags])] *)
Definition is_end (line : str) : bool :=
  existsb (fun hashtag => eqb (strip line) (text "# %end_" ++ hashtag)) hashtags.

Definition open_twice : str :=
  text "%" ++ hd [] hashtags ++ text " block open twice at line ".

Definition before_open : str :=
  text "%" ++ hd [] hashtags ++ text " block before open at line ".

(** The first line of a cell that has loaded [dest]. *)
Definition loaded (dest : str) : str := text "# %load " ++ dest ++ newline.

(** The test of the cell loop: the cell has a source, whose first line ends
    with a load of [dest]. *)
Definition asks (dest : str) (cell : Cell) : bool :=
  match source cell with
  | [] => false
  | first :: _ =>
      endswith first (text "%load " ++ dest ++ newline)
      || endswith first (text "%load " ++ dest)
  end.

(** One turn of the cell loop. *)
Definition load (dest : str) (content : list str) (cell : Cell) : Cell :=
  if asks dest cell
  then {| source := loaded dest :: content; meta := meta cell |}
  else cell.

(** The state of the loops: the lines of the open block, its file if a
    block is open, the cells of the notebook (the cells of [cells_copy] are
    the very cells of [data], so that a test sees the sources the turns
    before have set), the files written and the lines printed. *)
Record State := {
  content : list str;
  dest : option str;
  cells : list Cell;
  written : list (str * str);
  printed : list str
}.

(** One turn of the loop on the lines of the file of stem [name]. *)
Definition step (name : str) (st : State) (line_number : nat) (line : str)
  : Exception + State :=
  if is_open line then
    match dest st with
    | Some _ => inl (SyntaxError open_twice (line_number + 1))
    | None =>
        match nth_error (split line) 2 with
        | None => inl IndexError
        | Some word =>
            inr {| content := content st;
                   dest := Some (generated (name ++ text "_" ++ word));
                   cells := cells st; written := written st;
                   printed := printed st |}
        end
    end
  else if is_end line then
    match dest st with
    | None => inl (SyntaxError before_open (line_number + 1))
    | Some d =>
        inr {| content := []; dest := None;
               cells := map (load d (content st)) (cells st);
               written := written st ++ [(d, join (content st))];
               printed := printed st |}
    end
  else
    match dest st with
    | Some _ =>
        inr {| content := content st ++ [line]; dest := dest st;
               cells := cells st; written := written st;
               printed := printed st |}
    | None => inr st
    end.

(** The loop on the lines of a file, from the line of number [line_number]:
    the state it stops in and the exception that stops it. *)
Fixpoint scan (name : str) (rest : list str) (line_number : nat) (st : State)
  : State * option Exception :=
  match rest with
  | [] => (st, None)
  | line :: rest' =>
      match step name st line_number line with
      | inl e => (st, Some e)
      | inr st' => scan name rest' (S line_number) st'
      end
  end.

(** The loop on the files of the folder. *)
Fixpoint scan_files (files : list File) (st : State) : State * option Exception :=
  match files with
  | [] => (st, None)
  | f :: files' =>
      let st0 := {| content := []; dest := None; cells := cells st;
                    written := written st;
                    printed := printed st ++ [text " processing " ++ path f] |} in
      match scan (stem f) (lines f) 0 st0 with
      | (st1, Some e) => (st1, Some e)
      | (st1, None) => scan_files files' st1
      end
  end.

(** What a call leaves: the files written, the lines printed, and the cells
    written back to the notebook, or the exception raised before that. *)
Record Outcome := {
  files_written : list (str * str);
  lines_printed : list str;
  notebook : Exception + list Cell
}.

(** [generate(ipynb, folder)], for a notebook of cells [cells0] and the
    Python files [files] of the folder. *)
Definition generate (ipynb folder : str) (cells0 : list Cell) (files : list File)
  : Outcome :=
  let st0 := {| content := []; dest := None; cells := cells0; written := [];
                printed := [text "processing " ++ ipynb
                            ++ text " with scripts in " ++ folder] |} in
  match scan_files files st0 with
  | (st, Some e) =>
      {| files_written := written st; lines_printed := printed st;
         notebook := inl e |}
  | (st, None) =>
      {| files_written := written st; lines_printed := printed st;
         notebook := inr (cells st) |}
  end.

End Notebook.

Arguments source {Meta} _.
Arguments meta {Meta} _.
Arguments Build_Cell {Meta} _ _.
Arguments asks {Meta} _ _.
Arguments load {Meta} _ _ _.
Arguments content {Meta} _.
Arguments dest {Meta} _.
Arguments cells {Meta} _.
Arguments written {Meta} _.
Arguments printed {Meta} _.
Arguments Build_State {Meta} _ _ _ _ _.
Arguments step {Meta} _ _ _ _ _.
Arguments scan {Meta} _ _ _ _ _.
Arguments scan_files {Meta} _ _ _.
Arguments files_written {Meta} _.
Arguments lines_printed {Meta} _.
Arguments notebook {Meta} _.
Arguments Build_Outcome {Meta} _ _ _.
Arguments generate {Meta} _ _ _ _ _.

(** A line that neither opens nor closes a block. *)
Definition is_plain (line : str) : bool :=
  negb (is_open line) && negb (is_end line).

(** What the file of path [d] holds after the writes [ws]: the last write to
    it wins. *)
Fixpoint on_disk (ws : list (str * str)) (d : str) : option str :=
  match ws with
  | [] => None
  | (d', s) :: ws' =>
      match on_disk ws' d with
      | Some s' => Some s'
      | None => if eqb d' d then Some s else None
      end
  end.

(** A cell of the notebook against the cell [c0] it was at first: it is that
    cell, or it has the same [meta] and holds a load of a file and the very
    lines the file holds after the writes [ws]. *)
Definition in_step {Meta : Type} (ws : list (str * str)) (c0 c : Cell Meta) : Prop :=
  meta c = meta c0 /\
  (c = c0 \/
   exists d body, source c = loaded d :: body /\ on_disk ws d = Some (join body)).

(** The blocks [blocks], each a file and its lines, loaded in a cell in the
    order they were closed. *)
Definition load_all {Meta : Type} (blocks : list (str * list str)) (c : Cell Meta)
  : Cell Meta :=
  fold_left (fun c block => load (fst block) (snd block) c) blocks c.

(** What a block writes. *)
Definition file_of (block : str * list str) : str * str :=
  (fst block, join (snd block)).

(** No load line of a file of [ds] is asked for by another file of [ds]. *)
Definition own_loads (ds : list str) : Prop :=
  forall d d', In d ds -> In d' ds ->
    endswith (loaded d) (text "%load " ++ d' ++ newline)
    || endswith (loaded d) (text "%load " ++ d') = true ->
    d' = d.

(** The state [st] in a notebook of cells [cs]. *)
Definition set_cells {Meta : Type} (st : State Meta) (cs : list (Cell Meta))
  : State Meta :=
  {| content := content st; dest := dest st; cells := cs;
     written := written st; printed := printed st |}.

(** The state [st] of a run that started after the writes [ws] and the
    printed lines [ps]. *)
Definition after {Meta : Type} (ws : list (str * str)) (ps : list str)
           (st : State Meta) : State Meta :=
  {| content := content st; dest := dest st; cells := cells st;
     written := ws ++ written st; printed := ps ++ printed st |}.

(** The state the loop on the files starts from, in a notebook of cells [cs]
    and with nothing written or printed. *)
Definition fresh {Meta : Type} (cs : list (Cell Meta)) : State Meta :=
  {| content := []; dest := None; cells := cs; written := []; printed := [] |}.

End Generate.

(** A folder of one Python file and a notebook of three cells, the first of
    which asks for the snippet of the file. *)

Module Sample.

Import PyStr Generate.

Definition generated (name : str) : str := text "tp0/generated/" ++ name.

Definition before : list str := [text "import numpy" ++ newline].
Definition opening : str := text "# %jupyter_snippet 1" ++ newline.
Definition body : list str := [text "a = 1" ++ newline; text "b = a + 1" ++ newline].
Definition closing : str := text "    # %end_jupyter_snippet" ++ newline.
Definition unnamed : str := text "# %jupyter_snippet" ++ newline.
Definition rest : list str := [text "print(b)" ++ newline].

Definition cells : list (Cell unit) :=
  [{| source := [text "%load tp0/generated/traj_1"]; meta := tt |};
   {| source := []; meta := tt |};
   {| source := [text "x = 3" ++ newline]; meta := tt |}].

Definition file : File :=
  {| path := text "tp0/traj.py"; stem := text "traj";
     lines := before ++ opening :: body ++ closing :: rest |}.

End Sample.

(** ** The script *)

Section Script.
Context {P : Pinocchio}.

(** Hyper parameters. *)
Variable Mtarget : SE3.
Variable q0 : vec.
Variable T : Z.
Variable w_run w_term : R.

(** *** The viewer and pinocchio's data *)

Inductive Event : Type :=
| ApplyConfiguration (name : string) (M : SE3)  (* viz.applyConfiguration *)
| Display (q : vec)                             (* viz.display *)
| Sleep (dt : R).                               (* time.sleep *)

(** [model.createData()]: the placement of every frame. *)
Record Data := { oMf : nat -> SE3 }.

Definition createData : Data := {| oMf := fun _ => SE3_identity |}.

(** [pin.framesForwardKinematics(model, data, q)] *)
Definition framesForwardKinematics (d : Data) (q : vec) : Data :=
  {| oMf := frame_placement q |}.

Record World := {
  opti : Opti;
  data : Data;
  events : list Event;          (* what the viewer and the clock were asked, oldest first *)
  stdout : list string
}.

Definition set_opti (w : World) (o : Opti) : World :=
  {| opti := o; data := data w; events := events w; stdout := stdout w |}.

Definition print (s : string) (w : World) : World :=
  {| opti := opti w; data := data w; events := events w; stdout := stdout w ++ [s] |}.

Definition idTool : nat := getFrameId "tool0".
Definition boxID : string := "world/box".
Definition tipID : string := "world/blue".

(** [displayScene(q, dt)] *)
Definition displayScene (q : vec) (dt : R) (w : World) : World :=
  let d := framesForwardKinematics (data w) q in
  let M := oMf d idTool in
  {| opti := opti w; data := d;
     events := events w ++ [ApplyConfiguration boxID Mtarget;
                            ApplyConfiguration tipID M;
                            Display q;
                            Sleep dt];
     stdout := stdout w |}.

(** The default of [dt] in [displayScene] and in [displayTraj]. *)
Definition displayScene_dt : R := 1 / 10.
Definition displayTraj_dt : R := 1 / 100.

(** [displayTraj(qs, dt)] *)
Definition displayTraj (qs : list vec) (dt : R) (w : World) : World :=
  fold_left (fun w q => displayScene q dt w) (Py.tail_slice qs) w.

(** *** Casadi helpers *)

Definition cq : vexpr := Sym "x" nq.

(** [cdata.oMf] after [cpin.framesForwardKinematics(cmodel, cdata, cq)] *)
Definition cdata_oMf (frame : nat) : pexpr := OMf cq frame.

Definition error_tool : Function :=
  {| fname := "etool"; finput := "x";
     foutput := Log6Vector (PMul (PInverse (cdata_oMf idTool)) (PConst Mtarget)) |}.

(** *** PROBLEM *)

(** [[opti.variable(model.nq) for t in range(T+1)]], on [ts = range(T+1)] *)
Fixpoint declare (ts : list Z) (o : Opti) : Opti * list vexpr :=
  match ts with
  | [] => (o, [])
  | _ :: ts' =>
      let (o1, v) := Opti_variable o nq in
      let (o2, vs) := declare ts' o1 in
      (o2, v :: vs)
  end.

(** The loop [for t in range(T): totalcost += w_run * sumsqr(var_qs[t] - var_qs[t+1])] *)
Fixpoint running (var_qs : list vexpr) (ts : list Z) (totalcost : sexpr) : option sexpr :=
  match ts with
  | [] => Some totalcost
  | t :: ts' =>
      match Py.index var_qs t, Py.index var_qs (t + 1) with
      | Some a, Some b =>
          running var_qs ts' (SAdd totalcost (SMul (SConst w_run) (Sumsqr (VSub a b))))
      | _, _ => None
      end
  end.

(** The problem section of the script: the Opti, [var_qs] and [totalcost];
    [None] when an index is out of range. *)
Definition build (inst : nat) : option (Opti * list vexpr * sexpr) :=
  let (o, var_qs) := declare (Py.range (T + 1)) (casadi_Opti inst) in
  match Py.index var_qs 0 with
  | None => None
  | Some first =>
      let o := Opti_subject_to o (CEq first (VConst q0)) in
      match running var_qs (Py.range T) (SConst 0) with
      | None => None
      | Some totalcost =>
          match Py.index var_qs T with
          | None => None
          | Some last =>
              Some (o, var_qs,
                    SAdd totalcost
                         (SMul (SConst w_term) (Sumsqr (call error_tool last))))
          end
      end
  end.

(** *** SOLVE *)

(** The problem as the solver gets it. *)
Definition setup (inst : nat) : option (Opti * list vexpr) :=
  match build inst with
  | None => None
  | Some (o, var_qs, totalcost) =>
      let o := Opti_minimize o totalcost in
      let o := Opti_solver o "ipopt" in
      let o := Opti_callback o (DisplayLastOf var_qs) in
      Some (o, var_qs)
  end.

Variable ipopt : Opti -> SolverRun.

(** A call of the callback at iteration [i]; [None] when it raises. *)
Definition run_callback (f : Callback) (i : nat) (w : World) : option World :=
  match f with
  | DisplayLastOf var_qs =>
      match Py.index var_qs (-1) with
      | Some last =>
          match Opti_debug_value (opti w) last with
          | Some q => Some (displayScene q displayScene_dt w)
          | None => None
          end
      | None => None
      end
  end.

(** The error casadi raises. *)
Definition RuntimeError : string := "RuntimeError".

(** The iterations: each one moves the Opti to the iterate, then calls the
    callback.  An exception in the callback stops the solver, and the solve
    raises. *)
Fixpoint iterate (its : list (list vec)) (i : nat) (w : World) : World * option string :=
  match its with
  | [] => (w, None)
  | x :: its' =>
      let w1 := set_opti w (set_latest (opti w) x) in
      match on_iterate (opti w1) with
      | None => iterate its' (S i) w1
      | Some f =>
          match run_callback f i w1 with
          | Some w2 => iterate its' (S i) w2
          | None => (w1, Some RuntimeError)
          end
      end
  end.

(** [opti.solve_limited()]: the world after it, and the exception raised. *)
Definition Opti_solve_limited (w : World) : World * option string :=
  let run := ipopt (opti w) in
  let (w1, raised) := iterate (iterates run) 0 w in
  match raised with
  | Some e => (w1, Some e)
  | None =>
      match failure run with
      | Some e => (w1, Some e)
      | None => (set_opti w1 (mark_solved (opti w1)), None)
      end
  end.

Definition diagnostic : string := "ERROR in convergence, plotting debug info.".

(** The [try: ... except: ...] block: the world after it, and [sol_qs] or
    the exception that leaves the block.  An exception in the [try] part is
    caught, whatever it is; an exception in the [except] part is not. *)
Definition solve (w : World) (var_qs : list vexpr) : World * (string + list vec) :=
  let (w1, raised) := Opti_solve_limited w in
  let attempt :=
    match raised with
    | Some _ => None
    | None => Opti_values (opti w1) var_qs
    end in
  match attempt with
  | Some sol_qs => (w1, inr sol_qs)
  | None =>
      let w2 := print diagnostic w1 in
      match Opti_debug_values (opti w2) var_qs with
      | Some sol_qs => (w2, inr sol_qs)
      | None => (w2, inl RuntimeError)
      end
  end.

(** The script, from the problem section on: [None] when the problem section
    raises; if not, the world the script stops in and the exception that
    stops it, if any. *)
Definition main (inst : nat) : option (World * option string) :=
  match setup inst with
  | None => None
  | Some (o, var_qs) =>
      let w := {| opti := o; data := createData; events := []; stdout := [] |} in
      match solve w var_qs with
      | (w, inl e) => Some (w, Some e)
      | (w, inr sol_qs) =>
          let w := print "***** Display the resulting trajectory ..." w in
          let w := displayScene q0 1 w in
          Some (displayTraj sol_qs displayTraj_dt w, None)
      end
  end.

(** *** The problem section on the globals of the script *)

(** The globals the problem section assigns, unbound before their first
    assignment, and the number of Opti instances casadi has made. *)
Record Globals := {
  instances : nat;
  global_opti : option Opti;
  global_var_qs : option (list vexpr);
  global_totalcost : option sexpr
}.

(** [opti = casadi.Opti()] *)
Definition line_88 (g : Globals) : option Globals :=
  Some {| instances := S (instances g);
          global_opti := Some (casadi_Opti (instances g));
          global_var_qs := global_var_qs g;
          global_totalcost := global_totalcost g |}.

(** [var_qs = [ opti.variable(model.nq) for t in range(T+1) ]] *)
Definition line_89 (g : Globals) : option Globals :=
  match global_opti g with
  | None => None
  | Some o =>
      let (o', var_qs) := declare (Py.range (T + 1)) o in
      Some {| instances := instances g; global_opti := Some o';
              global_var_qs := Some var_qs;
              global_totalcost := global_totalcost g |}
  end.

(** [totalcost = 0] *)
Definition line_90 (g : Globals) : option Globals :=
  Some {| instances := instances g; global_opti := global_opti g;
          global_var_qs := global_var_qs g;
          global_totalcost := Some (SConst 0) |}.

(** [opti.subject_to(var_qs[0] == robot.q0)] *)
Definition line_91 (g : Globals) : option Globals :=
  match global_opti g, global_var_qs g with
  | Some o, Some var_qs =>
      match Py.index var_qs 0 with
      | Some first =>
          Some {| instances := instances g;
                  global_opti := Some (Opti_subject_to o (CEq first (VConst q0)));
                  global_var_qs := global_var_qs g;
                  global_totalcost := global_totalcost g |}
      | None => None
      end
  | _, _ => None
  end.

(** The loop of lines 93 and 94. *)
Definition lines_93_94 (g : Globals) : option Globals :=
  match global_var_qs g, global_totalcost g with
  | Some var_qs, Some totalcost =>
      match running var_qs (Py.range T) totalcost with
      | Some totalcost' =>
          Some {| instances := instances g; global_opti := global_opti g;
                  global_var_qs := global_var_qs g;
                  global_totalcost := Some totalcost' |}
      | None => None
      end
  | _, _ => None
  end.

(** [totalcost += w_term * casadi.sumsqr( error_tool(var_qs[T]) )] *)
Definition line_95 (g : Globals) : option Globals :=
  match global_var_qs g, global_totalcost g with
  | Some var_qs, Some totalcost =>
      match Py.index var_qs T with
      | Some last =>
          Some {| instances := instances g; global_opti := global_opti g;
                  global_var_qs := global_var_qs g;
                  global_totalcost :=
                    Some (SAdd totalcost
                               (SMul (SConst w_term)
                                     (Sumsqr (call error_tool last)))) |}
      | None => None
      end
  | _, _ => None
  end.

Definition and_then (f h : Globals -> option Globals) (g : Globals)
  : option Globals :=
  match f g with
  | Some g' => h g'
  | None => None
  end.

(** The problem section, run on the globals it finds; [None] when a line
    raises. *)
Definition problem_section : Globals -> option Globals :=
  and_then line_88
    (and_then line_89
       (and_then line_90 (and_then line_91 (and_then lines_93_94 line_95)))).

(** The value at [x] of the objective the globals hold. *)
Definition totalcost_at (g : Globals) (x : list vec) : option R :=
  option_map (seval x) (global_totalcost g).

(** The shape of the problem the globals hold: the dimensions of its
    decision variables and the number of its constraints. *)
Definition problem_shape (g : Globals) : option (list nat * nat) :=
  option_map (fun o => (variables o, length (constraints o))) (global_opti g).

(** *** Notions the properties are stated with *)

(** The placement of the tool at [q], as [displayScene] computes it. *)
Definition forwardKinematics (q : vec) : SE3 :=
  oMf (framesForwardKinematics createData q) idTool.

(** The value of the casadi function [error_tool] at a numeric [q]. *)
Definition poseError (q : vec) : vec :=
  veval (fun _ => []) [] (call error_tool (VConst q)).

(** In the words of the specification: the logarithm of
    [inverse(forwardKinematics(q)) * target], as a 6-vector. *)
Definition spec_poseError (q : vec) : vec :=
  vector (log6 (SE3_mul (SE3_inverse (forwardKinematics q)) Mtarget)).

(** [f 0 + ... + f (n-1)] *)
Fixpoint sum_upto (n : nat) (f : nat -> R) : R :=
  match n with
  | O => 0
  | S k => sum_upto k f + f k
  end.

(** The horizon as a natural number. *)
Definition horizon : nat := Z.to_nat T.

(** Every decision vector is part of the problem: with a running weight of
    zero the steps between the first and the last are in no term of the cost,
    and the last is in the terminal term only. *)
Definition every_vector_used : Prop :=
  T = 0%Z \/ w_run <> 0 \/ (T = 1%Z /\ w_term <> 0).

(** The last decision vector is part of the problem. *)
Definition last_vector_used : Prop :=
  T = 0%Z \/ w_run <> 0 \/ w_term <> 0.

(** In the words of the specification:
    [w_run * sum_{t=0}^{T-1} ||q_t - q_{t+1}||^2 + w_term * ||poseError(q_T)||^2]. *)
Definition spec_objective (x : list vec) : R :=
  w_run * sum_upto horizon (fun t => sumsqr (vsub (nth t x []) (nth (S t) x [])))
  + w_term * sumsqr (spec_poseError (nth horizon x [])).

(** The terminal term alone. *)
Definition terminal (q : vec) : R := w_term * sumsqr (poseError q).

(** The symbols of the decision vectors 0 .. n-1 of the Opti [inst]. *)
Definition decision_vectors (inst : nat) (n : nat) : list vexpr :=
  map (fun i => OptiVar inst i nq) (seq 0 n).


(** What one [displayScene(q, dt)] asks of the viewer and of the clock. *)
Definition scene (q : vec) (dt : R) : list Event :=
  [ApplyConfiguration boxID Mtarget;
   ApplyConfiguration tipID (forwardKinematics q);
   Display q;
   Sleep dt].

(** The configurations displayed, in order, each with the pause that follows
    its display. *)
Fixpoint displayed (es : list Event) : list (vec * R) :=
  match es with
  | Display q :: Sleep dt :: es' => (q, dt) :: displayed es'
  | _ :: es' => displayed es'
  | [] => []
  end.

(** ** Properties *)

(** *** Python lists and vectors *)

Lemma index_of_nat {A : Type} (l : list A) (t : nat) :
  Py.index l (Z.of_nat t) = nth_error l t.
Proof.
  unfold Py.index.
  destruct (Z.leb_spec 0 (Z.of_nat t)); [| lia].
  now rewrite Nat2Z.id.
Qed.

Lemma index_minus_one {A : Type} (l : list A) (a : A) :
  Py.index (l ++ [a]) (-1) = Some a.
Proof.
  unfold Py.index. rewrite length_app. cbn [length].
  destruct (Z.leb_spec 0 (-1)); [lia |].
  destruct (Z.leb_spec (- Z.of_nat (length l + 1)) (-1)); [| lia].
  replace (Z.to_nat (Z.of_nat (length l + 1) + -1)) with (length l) by lia.
  rewrite nth_error_app2 by lia. now rewrite Nat.sub_diag.
Qed.

Lemma range_succ (n : nat) :
  Py.range (Z.of_nat (S n)) = Py.range (Z.of_nat n) ++ [Z.of_nat n].
Proof.
  unfold Py.range. rewrite !Nat2Z.id, seq_S, map_app. reflexivity.
Qed.

Lemma range_length (n : Z) : length (Py.range n) = Z.to_nat n.
Proof. unfold Py.range. now rewrite length_map, length_seq. Qed.

Lemma sumsqr_nonneg (v : vec) : 0 <= sumsqr v.
Proof. induction v as [| x v IH]; cbn; [lra | nra]. Qed.

Lemma vsub_diag (v : vec) : sumsqr (vsub v v) = 0.
Proof. induction v as [| x v IH]; cbn; [reflexivity | rewrite IH; lra]. Qed.

Lemma sumsqr_vsub_zero (a b : vec) :
  length a = length b -> sumsqr (vsub a b) = 0 -> a = b.
Proof.
  revert b. induction a as [| x a IH]; intros [| y b] Hlen Hz; try discriminate.
  - reflexivity.
  - cbn in Hz. injection Hlen as Hlen.
    pose proof (sumsqr_nonneg (vsub a b)) as Hpos.
    assert (Hxy : x - y = 0) by nra.
    assert (Hrest : sumsqr (vsub a b) = 0) by nra.
    f_equal; [lra | now apply IH].
Qed.

Lemma sum_upto_ext (n : nat) (f g : nat -> R) :
  (forall t, (t < n)%nat -> f t = g t) -> sum_upto n f = sum_upto n g.
Proof.
  induction n as [| n IH]; intros E; cbn; [reflexivity |].
  rewrite IH, (E n) by (intros; try apply E; lia). reflexivity.
Qed.

Lemma sum_upto_scal (n : nat) (c : R) (f : nat -> R) :
  sum_upto n (fun t => c * f t) = c * sum_upto n f.
Proof. induction n as [| n IH]; cbn; [lra | rewrite IH; lra]. Qed.

Lemma sum_upto_nonneg (n : nat) (f : nat -> R) :
  (forall t, (t < n)%nat -> 0 <= f t) -> 0 <= sum_upto n f.
Proof.
  induction n as [| n IH]; intros Hf; cbn; [lra |].
  assert (0 <= sum_upto n f) by (apply IH; intros; apply Hf; lia).
  assert (0 <= f n) by (apply Hf; lia). lra.
Qed.

Lemma sum_upto_zero (n : nat) (f : nat -> R) :
  (forall t, (t < n)%nat -> 0 <= f t) -> sum_upto n f = 0 ->
  forall t, (t < n)%nat -> f t = 0.
Proof.
  induction n as [| n IH]; intros Hf Hz t Ht; [lia |].
  cbn in Hz.
  assert (0 <= sum_upto n f) by (apply sum_upto_nonneg; intros; apply Hf; lia).
  assert (0 <= f n) by (apply Hf; lia).
  destruct (Nat.eq_dec t n) as [-> | Hne]; [lra |].
  apply IH; [intros; apply Hf; lia | lra | lia].
Qed.

(** *** What the problem section builds *)

Lemma decision_vectors_nth (inst n t : nat) :
  (t < n)%nat -> nth_error (decision_vectors inst n) t = Some (OptiVar inst t nq).
Proof.
  intros Ht. unfold decision_vectors.
  rewrite nth_error_map, nth_error_seq.
  destruct (Nat.ltb_spec t n); [reflexivity | lia].
Qed.

Lemma decision_vectors_succ (inst n : nat) :
  decision_vectors inst (S n) = decision_vectors inst n ++ [OptiVar inst n nq].
Proof. unfold decision_vectors. now rewrite seq_S, map_app. Qed.

Lemma decision_vectors_length (inst n : nat) :
  length (decision_vectors inst n) = n.
Proof. unfold decision_vectors. now rewrite length_map, length_seq. Qed.

(** The comprehension adds one variable of dimension [nq] per element of the
    range, numbered from the number of variables the Opti already has. *)
Lemma declare_spec (ts : list Z) (o : Opti) :
  declare ts o =
  ({| instance := instance o;
      variables := variables o ++ repeat nq (length ts);
      constraints := constraints o; objective := objective o;
      solver_name := solver_name o; on_iterate := on_iterate o;
      latest := latest o ++ repeat (repeat 0 nq) (length ts);
      solved := solved o |},
   map (fun i => OptiVar (instance o) i nq) (seq (length (variables o)) (length ts))).
Proof.
  revert o. induction ts as [| t ts IH]; intros o.
  - cbn. rewrite !app_nil_r. now destruct o.
  - cbn [declare]. unfold Opti_variable. rewrite IH. cbn.
    rewrite length_app, <- !app_assoc. cbn.
    replace (length (variables o) + 1)%nat with (S (length (variables o))) by lia.
    reflexivity.
Qed.

(** The Opti after the problem section, for the horizon [n]. *)
Lemma declare_range (inst n : nat) :
  declare (Py.range (Z.of_nat n)) (casadi_Opti inst) =
  ({| instance := inst; variables := repeat nq n; constraints := [];
      objective := None; solver_name := None; on_iterate := None;
      latest := repeat (repeat 0 nq) n; solved := false |},
   decision_vectors inst n).
Proof.
  rewrite declare_spec, range_length, Nat2Z.id. reflexivity.
Qed.

Lemma running_app (var_qs : list vexpr) (ts1 ts2 : list Z) (e : sexpr) :
  running var_qs (ts1 ++ ts2) e =
  match running var_qs ts1 e with
  | Some e1 => running var_qs ts2 e1
  | None => None
  end.
Proof.
  revert e. induction ts1 as [| t ts1 IH]; intros e; cbn; [reflexivity |].
  destruct (Py.index var_qs t), (Py.index var_qs (t + 1)); auto.
Qed.

(** The loop succeeds on every prefix of the horizon, and its expression
    evaluates to the sum of the weighted squared steps. *)
Lemma running_range (inst n k : nat) :
  (k <= n)%nat ->
  exists e,
    running (decision_vectors inst (S n)) (Py.range (Z.of_nat k)) (SConst 0) = Some e /\
    forall x, seval x e =
      sum_upto k (fun t => w_run * sumsqr (vsub (nth t x []) (nth (S t) x []))).
Proof.
  induction k as [| k IH]; intros Hk.
  - exists (SConst 0). split; [reflexivity | intros; reflexivity].
  - destruct IH as (e & He & Hv); [lia |].
    rewrite range_succ, running_app, He. cbn [running].
    replace (Z.of_nat k + 1)%Z with (Z.of_nat (S k)) by lia.
    rewrite !index_of_nat, !decision_vectors_nth by lia.
    eexists. split; [reflexivity |].
    intros x. cbn. rewrite Hv. reflexivity.
Qed.

(** The value of [error_tool] is the pose error of the specification. *)
Lemma poseError_spec (q : vec) : poseError q = spec_poseError q.
Proof. reflexivity. Qed.

Lemma error_tool_eval (x : list vec) (e : vexpr) :
  veval (fun _ => []) x (call error_tool e) = poseError (veval (fun _ => []) x e).
Proof. reflexivity. Qed.

(** The problem section succeeds for a horizon [T >= 0]; it leaves an Opti
    with [T+1] variables and the one constraint, and a cost that evaluates to
    the objective of the specification. *)
Lemma build_ok (inst : nat) :
  (0 <= T)%Z ->
  exists totalcost,
    build inst =
      Some ({| instance := inst; variables := repeat nq (S horizon);
               constraints := [CEq (OptiVar inst 0 nq) (VConst q0)];
               objective := None; solver_name := None; on_iterate := None;
               latest := repeat (repeat 0 nq) (S horizon); solved := false |},
            decision_vectors inst (S horizon), totalcost) /\
    forall x, seval x totalcost = spec_objective x.
Proof.
  intros HT. unfold build, spec_objective, horizon.
  destruct (Z_of_nat_complete T HT) as [n Hn]. rewrite Hn, Nat2Z.id.
  replace (Z.of_nat n + 1)%Z with (Z.of_nat (S n)) by lia.
  rewrite declare_range.
  rewrite (index_of_nat (decision_vectors inst (S n)) 0 : Py.index _ 0%Z = _).
  rewrite decision_vectors_nth by lia.
  destruct (running_range inst n n) as (e & He & Hv); [lia |].
  rewrite He, index_of_nat, decision_vectors_nth by lia.
  eexists. split; [reflexivity |].
  intros x. cbn [seval]. rewrite Hv, sum_upto_scal, error_tool_eval.
  cbn [veval]. rewrite poseError_spec. reflexivity.
Qed.

(** The problem as the solver gets it, for a horizon [T >= 0]. *)
Lemma setup_ok (inst : nat) :
  (0 <= T)%Z ->
  exists o,
    setup inst = Some (o, decision_vectors inst (S horizon)) /\
    instance o = inst /\
    variables o = repeat nq (S horizon) /\
    constraints o = [CEq (OptiVar inst 0 nq) (VConst q0)] /\
    (forall x, cost o x = spec_objective x) /\
    solver_name o = Some "ipopt"%string /\
    on_iterate o = Some (DisplayLastOf (decision_vectors inst (S horizon))) /\
    latest o = repeat (repeat 0 nq) (S horizon) /\
    solved o = false.
Proof.
  intros HT. destruct (build_ok inst HT) as (totalcost & Hb & Hv).
  unfold setup. rewrite Hb.
  eexists. split; [reflexivity |].
  repeat split; try reflexivity. exact Hv.
Qed.

Lemma vector_length (m : Motion) : length (vector m) = 6%nat.
Proof. destruct m as [[[lx ly] lz] [[ax ay] az]]. reflexivity. Qed.

Lemma map_length_repeat_nth (x : list vec) (n k t : nat) :
  map (@length R) x = repeat n k -> (t < k)%nat -> length (nth t x []) = n.
Proof.
  intros Hx Ht.
  assert (E : nth t (map (@length R) x) 0%nat = n)
    by (rewrite Hx; now apply nth_repeat_lt).
  now rewrite <- E, <- (map_nth (@length R)).
Qed.

Lemma map_length_repeat_length (x : list vec) (n k : nat) :
  map (@length R) x = repeat n k -> length x = k.
Proof.
  intros Hx. apply (f_equal (@length nat)) in Hx.
  now rewrite length_map, repeat_length in Hx.
Qed.

(** The feasible points of the problem: [T+1] vectors of dimension [nq], the
    first of which is [q0]. *)
Lemma feasible_iff (o : Opti) (inst : nat) (x : list vec) :
  variables o = repeat nq (S horizon) ->
  constraints o = [CEq (OptiVar inst 0 nq) (VConst q0)] ->
  feasible o x <-> map (@length R) x = repeat nq (S horizon) /\ nth 0 x [] = q0.
Proof.
  intros Hvars Hcons. unfold feasible. rewrite Hvars, Hcons. split.
  - intros [Hdim Hc]. split; [exact Hdim |]. now inversion Hc.
  - intros [Hdim Hc]. split; [exact Hdim |]. now repeat constructor.
Qed.

(** A negative horizon: [var_qs[0]] is out of range. *)
Lemma setup_negative (inst : nat) : (T < 0)%Z -> setup inst = None.
Proof.
  intros HT. unfold setup, build, Py.range.
  replace (Z.to_nat (T + 1)) with 0%nat by lia. reflexivity.
Qed.

(** *** The problem builder *)

(** C1. For every horizon [T >= 0] and all weights, the problem handed to the
    solver has exactly [T+1] decision vectors, each of dimension [nq], exactly
    one constraint, which holds exactly when the first decision vector equals
    [q0] (a constraint, not a term of the cost), and a cost that evaluates to
    [w_run * sum_{t<T} ||q_t - q_{t+1}||^2 + w_term * ||poseError(q_T)||^2]
    at every assignment of the decision vectors. *)
Theorem built_problem (inst : nat) :
  (0 <= T)%Z ->
  exists o var_qs,
    setup inst = Some (o, var_qs) /\
    Z.of_nat (length var_qs) = (T + 1)%Z /\
    var_qs = map (fun t => OptiVar inst t nq) (seq 0 (length var_qs)) /\
    variables o = repeat nq (length var_qs) /\
    (exists c, constraints o = [c] /\
               forall x, holds x c <-> nth 0 x [] = q0) /\
    forall x,
      cost o x =
      w_run * sum_upto (Z.to_nat T)
                (fun t => sumsqr (vsub (nth t x []) (nth (S t) x [])))
      + w_term * sumsqr (spec_poseError (nth (Z.to_nat T) x [])).
Proof.
  intros HT.
  destruct (setup_ok inst HT) as (o & Hs & _ & Hvars & Hcons & Hcost & _).
  exists o, (decision_vectors inst (S horizon)).
  rewrite decision_vectors_length.
  split; [exact Hs |].
  split; [unfold horizon; lia |].
  split; [reflexivity |].
  split; [exact Hvars |].
  split; [| exact Hcost].
  eexists. split; [exact Hcons |]. intros x. reflexivity.
Qed.

(** *** The kinematics evaluator *)

(** C3. At every configuration [q], the value of [error_tool] is the
    logarithm of [inverse(forwardKinematics(q)) * Mtarget], a vector of six
    components: the three of the linear part, then the three of the angular
    part.  The same holds where the function is applied to an expression of
    the decision variables. *)
Theorem poseError_is_log (q : vec) :
  let m := log6 (SE3_mul (SE3_inverse (forwardKinematics q)) Mtarget) in
  poseError q = vector m /\
  length (poseError q) = 6%nat /\
  (forall x e, veval (fun _ => []) x e = q ->
               veval (fun _ => []) x (call error_tool e) = vector m).
Proof.
  cbn zeta. split; [reflexivity |].
  split; [apply vector_length |].
  intros x e He. rewrite error_tool_eval, He. reflexivity.
Qed.

Lemma SE3_inverse_mul_identity {L : PinocchioLaws P} (a b : SE3) :
  SE3_mul (SE3_inverse a) b = SE3_identity <-> a = b.
Proof.
  split.
  - intros E.
    rewrite <- (SE3_mul_1_r a), <- E, SE3_mul_assoc, SE3_mul_inv_r.
    apply SE3_mul_1_l.
  - intros <-. apply SE3_mul_inv_l.
Qed.

(** C4. Where placements form a group and the logarithm vanishes at the
    identity only, the pose error at [q] is the zero 6-vector if and only if
    the tool placement at [q] is the target. *)
Theorem poseError_zero_iff {L : PinocchioLaws P} (q : vec) :
  poseError q = zero6 <-> forwardKinematics q = Mtarget.
Proof.
  rewrite poseError_spec. unfold spec_poseError.
  rewrite log6_zero. apply SE3_inverse_mul_identity.
Qed.

(** *** Minimizers *)

Lemma sum_upto_0 (n : nat) : sum_upto n (fun _ => 0) = 0.
Proof. induction n as [| n IH]; cbn; [reflexivity | rewrite IH; lra]. Qed.

Lemma map_length_constant (q : vec) (k : nat) :
  map (@length R) (repeat q k) = repeat (length q) k.
Proof. induction k as [| k IH]; cbn; [reflexivity | now rewrite IH]. Qed.

(** A trajectory whose consecutive steps are equal is constant. *)
Lemma constant_of_equal_steps (x : list vec) (q : vec) (n : nat) :
  length x = S n -> nth 0 x [] = q ->
  (forall t, (t < n)%nat -> nth t x [] = nth (S t) x []) ->
  x = repeat q (S n).
Proof.
  intros Hlen H0 Hstep.
  assert (Hall : forall t, (t <= n)%nat -> nth t x [] = q).
  { induction t as [| t IH]; intros Ht; [exact H0 |].
    rewrite <- Hstep by lia. apply IH. lia. }
  apply (nth_ext _ _ [] []).
  - now rewrite repeat_length.
  - intros t Ht.
    assert (Ht' : (t < S n)%nat) by (rewrite <- Hlen; exact Ht).
    rewrite Hall by lia. symmetry. apply nth_repeat_lt. lia.
Qed.

(** The squared step [t] of a feasible trajectory vanishes only if the
    steps are equal. *)
Lemma step_zero (x : list vec) (n t : nat) :
  map (@length R) x = repeat nq (S n) -> (t < n)%nat ->
  sumsqr (vsub (nth t x []) (nth (S t) x [])) = 0 ->
  nth t x [] = nth (S t) x [].
Proof.
  intros Hdim Ht Hz. apply sumsqr_vsub_zero; [| exact Hz].
  rewrite (map_length_repeat_nth x nq (S n) t), (map_length_repeat_nth x nq (S n) (S t));
    auto; lia.
Qed.

(** C6. With [w_term = 0] and [w_run > 0], the constant trajectory
    [q_t = q0] is a minimizer of the problem, of cost zero, and it is the only
    feasible trajectory of cost zero: the running sum of a feasible trajectory
    vanishes only when all consecutive steps are equal. *)
Theorem constant_trajectory_optimal (inst : nat) :
  (0 <= T)%Z -> w_term = 0 -> 0 < w_run -> length q0 = nq ->
  exists o var_qs,
    setup inst = Some (o, var_qs) /\
    minimizer o (repeat q0 (S horizon)) /\
    cost o (repeat q0 (S horizon)) = 0 /\
    (forall x, feasible o x -> cost o x = 0 -> x = repeat q0 (S horizon)) /\
    (forall x, feasible o x ->
       sum_upto horizon (fun t => sumsqr (vsub (nth t x []) (nth (S t) x []))) = 0 ->
       forall t, (t < horizon)%nat -> nth t x [] = nth (S t) x []).
Proof.
  intros HT Hterm Hrun Hq0.
  destruct (setup_ok inst HT) as (o & Hs & _ & Hvars & Hcons & Hcost & _).
  exists o, (decision_vectors inst (S horizon)).
  pose proof (feasible_iff o inst) as Hfeas.
  assert (Hc : forall x, cost o x =
            w_run * sum_upto horizon
                      (fun t => sumsqr (vsub (nth t x []) (nth (S t) x [])))).
  { intros x. rewrite Hcost. unfold spec_objective. rewrite Hterm. lra. }
  assert (Hpos : forall x, 0 <=
            sum_upto horizon (fun t => sumsqr (vsub (nth t x []) (nth (S t) x [])))).
  { intros x. apply sum_upto_nonneg. intros; apply sumsqr_nonneg. }
  assert (Hsteps : forall x, feasible o x ->
            sum_upto horizon (fun t => sumsqr (vsub (nth t x []) (nth (S t) x []))) = 0 ->
            forall t, (t < horizon)%nat -> nth t x [] = nth (S t) x []).
  { intros x Hx Hz t Ht. apply Hfeas in Hx; auto. destruct Hx as [Hdim _].
    apply (step_zero x horizon t Hdim Ht).
    apply (sum_upto_zero horizon
             (fun t => sumsqr (vsub (nth t x []) (nth (S t) x [])))); auto.
    intros; apply sumsqr_nonneg. }
  assert (Hconst : cost o (repeat q0 (S horizon)) = 0).
  { rewrite Hc.
    rewrite (sum_upto_ext horizon _ (fun _ => 0)).
    - rewrite sum_upto_0. lra.
    - intros t Ht. rewrite !nth_repeat_lt by lia. apply vsub_diag. }
  split; [exact Hs |].
  split; [| split; [exact Hconst | split; [| exact Hsteps]]].
  - split.
    + apply Hfeas; auto. split; [| reflexivity].
      now rewrite map_length_constant, Hq0.
    + intros y _. rewrite Hconst, Hc.
      apply Rmult_le_pos; [lra | apply Hpos].
  - intros x Hx Hz. rewrite Hc in Hz.
    assert (Hsum : sum_upto horizon
              (fun t => sumsqr (vsub (nth t x []) (nth (S t) x []))) = 0).
    { apply Rmult_integral in Hz. destruct Hz as [Hz | Hz]; [lra | exact Hz]. }
    pose proof (Hsteps x Hx Hsum) as Heq.
    apply Hfeas in Hx; auto. destruct Hx as [Hdim H0].
    apply constant_of_equal_steps; auto.
    now apply map_length_repeat_length with (n := nq).
Qed.

(** Replacing the last step of a feasible trajectory. *)
Lemma replace_last_feasible (o : Opti) (inst : nat) (x : list vec) (q : vec) :
  variables o = repeat nq (S horizon) ->
  constraints o = [CEq (OptiVar inst 0 nq) (VConst q0)] ->
  (1 <= horizon)%nat -> feasible o x -> length q = nq ->
  feasible o (firstn horizon x ++ [q]) /\
  nth horizon (firstn horizon x ++ [q]) [] = q.
Proof.
  intros Hvars Hcons Hn Hx Hq.
  pose proof (feasible_iff o inst) as Hfeas.
  apply Hfeas in Hx; auto. destruct Hx as [Hdim H0].
  pose proof (map_length_repeat_length x nq (S horizon) Hdim) as Hlen.
  assert (Hfirst : length (firstn horizon x) = horizon)
    by (rewrite length_firstn, Hlen; lia).
  split.
  - apply Hfeas; auto. split.
    + rewrite map_app, <- firstn_map, Hdim. cbn [map]. rewrite Hq.
      change (repeat nq (S horizon)) with (nq :: repeat nq horizon).
      rewrite repeat_cons, firstn_app, repeat_length, Nat.sub_diag.
      cbn [firstn]. rewrite app_nil_r, firstn_all2 by (rewrite repeat_length; lia).
      reflexivity.
    + rewrite app_nth1 by (rewrite Hfirst; lia).
      rewrite <- (firstn_skipn horizon x) in H0.
      rewrite app_nth1 in H0 by (rewrite Hfirst; lia). exact H0.
  - rewrite app_nth2 by (rewrite Hfirst; lia).
    rewrite Hfirst, Nat.sub_diag. reflexivity.
Qed.

(** C5, as the code has it.  With [w_run = 0] and a horizon [T >= 1], a
    feasible trajectory is a minimizer exactly when its last step minimizes
    the terminal term alone; the steps before the last are left free: a
    feasible trajectory with the last step of a minimizer is a minimizer. *)
Theorem terminal_only_minimizers (inst : nat) :
  (1 <= T)%Z -> w_run = 0 ->
  exists o var_qs,
    setup inst = Some (o, var_qs) /\
    (forall x, minimizer o x <->
       feasible o x /\
       forall q, length q = nq -> terminal (nth horizon x []) <= terminal q) /\
    (forall x y, minimizer o x -> feasible o y ->
       nth horizon y [] = nth horizon x [] -> minimizer o y).
Proof.
  intros HT Hrun.
  destruct (setup_ok inst) as (o & Hs & _ & Hvars & Hcons & Hcost & _); [lia |].
  exists o, (decision_vectors inst (S horizon)).
  pose proof (feasible_iff o inst) as Hfeas.
  assert (Hn : (1 <= horizon)%nat) by (unfold horizon; lia).
  assert (Hc : forall x, cost o x = terminal (nth horizon x [])).
  { intros x. rewrite Hcost. unfold spec_objective, terminal.
    rewrite Hrun.
    change (spec_poseError (nth horizon x [])) with (poseError (nth horizon x [])).
    lra. }
  assert (Hiff : forall x, minimizer o x <->
            feasible o x /\
            forall q, length q = nq -> terminal (nth horizon x []) <= terminal q).
  { intros x. split.
    - intros [Hx Hmin]. split; [exact Hx |]. intros q Hq.
      destruct (replace_last_feasible o inst x q Hvars Hcons Hn Hx Hq) as [Hy Hlast].
      specialize (Hmin _ Hy). now rewrite !Hc, Hlast in Hmin.
    - intros [Hx Hmin]. split; [exact Hx |]. intros y Hy.
      rewrite !Hc. apply Hmin.
      apply Hfeas in Hy; auto. destruct Hy as [Hdim _].
      apply (map_length_repeat_nth y nq (S horizon)); auto. }
  split; [exact Hs | split; [exact Hiff |]].
  intros x y Hx Hy Hlast. apply Hiff. apply Hiff in Hx.
  split; [exact Hy |]. rewrite Hlast. apply Hx.
Qed.

(** C7. With [T = 0] the running sum is empty: the problem has the single
    decision vector [q_0] under the constraint [q_0 = q0], its cost is the
    terminal term alone, its only feasible point is [q0], which is therefore
    its solution. *)
Theorem zero_horizon (inst : nat) :
  T = 0%Z -> length q0 = nq ->
  exists o var_qs,
    setup inst = Some (o, var_qs) /\
    var_qs = [OptiVar inst 0 nq] /\
    variables o = [nq] /\
    constraints o = [CEq (OptiVar inst 0 nq) (VConst q0)] /\
    (forall x, cost o x = w_term * sumsqr (poseError (nth 0 x []))) /\
    (forall x, feasible o x <-> x = [q0]) /\
    (forall x, minimizer o x <-> x = [q0]).
Proof.
  intros HT Hq0.
  destruct (setup_ok inst) as (o & Hs & _ & Hvars & Hcons & Hcost & _); [lia |].
  pose proof (feasible_iff o inst) as Hfeas.
  assert (Hn : horizon = 0%nat) by (unfold horizon; lia).
  rewrite Hn in *.
  assert (Hfeas1 : forall x, feasible o x <-> x = [q0]).
  { intros x. rewrite Hfeas by auto. split.
    - intros [Hdim H0]. destruct x as [| v [| v' x]]; try discriminate.
      cbn in H0. now subst v.
    - intros ->. cbn. now rewrite Hq0. }
  exists o, (decision_vectors inst 1).
  split; [exact Hs |].
  split; [reflexivity |].
  split; [exact Hvars |].
  split; [exact Hcons |].
  split; [| split; [exact Hfeas1 |]].
  - intros x. rewrite Hcost. unfold spec_objective. rewrite Hn.
    change (spec_poseError (nth 0 x [])) with (poseError (nth 0 x [])).
    cbn [sum_upto]. lra.
  - intros x. split.
    + intros [Hx _]. now apply Hfeas1.
    + intros ->. split; [now apply Hfeas1 |].
      intros y Hy. apply Hfeas1 in Hy. subst y. lra.
Qed.

(** *** The trajectory player *)

Lemma nth_seq_self {A : Type} (l : list A) (d : A) :
  map (fun i => nth i l d) (seq 0 (length l)) = l.
Proof.
  induction l as [| a l IH]; [reflexivity |].
  cbn [length seq map nth]. rewrite <- seq_shift, map_map. cbn [nth].
  now rewrite IH.
Qed.

(** [qs[1:]] lists the elements of index 1 to [len(qs) - 1], in order. *)
Lemma tail_slice_indices {A : Type} (qs : list A) (d : A) :
  Py.tail_slice qs = map (fun i => nth i qs d) (seq 1 (length qs - 1)).
Proof.
  destruct qs as [| a l]; [reflexivity |].
  replace (length (a :: l) - 1)%nat with (length l) by (cbn [length]; lia).
  cbn [Py.tail_slice skipn]. rewrite <- seq_shift, map_map.
  cbn [nth]. now rewrite nth_seq_self.
Qed.

Lemma flat_map_map {A B C : Type} (f : B -> list C) (g : A -> B) (l : list A) :
  flat_map f (map g l) = flat_map (fun a => f (g a)) l.
Proof. induction l as [| a l IH]; cbn; [reflexivity | now rewrite IH]. Qed.

Lemma displayScene_events (q : vec) (dt : R) (w : World) :
  events (displayScene q dt w) = events w ++ scene q dt.
Proof. reflexivity. Qed.

Lemma displayScene_loop (l : list vec) (dt : R) (w : World) :
  events (fold_left (fun w q => displayScene q dt w) l w) =
  events w ++ flat_map (fun q => scene q dt) l.
Proof.
  revert w. induction l as [| q l IH]; intros w; cbn [fold_left flat_map].
  - now rewrite app_nil_r.
  - now rewrite IH, displayScene_events, <- app_assoc.
Qed.

Lemma displayed_scenes (l : list vec) (dt : R) :
  displayed (flat_map (fun q => scene q dt) l) = map (fun q => (q, dt)) l.
Proof. induction l as [| q l IH]; cbn; [reflexivity | now rewrite <- IH]. Qed.

(** C10. Whatever the trajectory [qs], the player shows the scene of the
    elements of index 1 to [len(qs) - 1], in increasing order of the index,
    each followed by a pause of the step delay, and nothing else: the element
    of index 0 is not among the indices shown. *)
Theorem displayTraj_skips_first (qs : list vec) (dt : R) (w : World) :
  let shown := flat_map (fun i => scene (nth i qs []) dt) (seq 1 (length qs - 1)) in
  events (displayTraj qs dt w) = events w ++ shown /\
  displayed shown = map (fun i => (nth i qs [], dt)) (seq 1 (length qs - 1)).
Proof.
  cbn zeta. unfold displayTraj.
  rewrite displayScene_loop, (tail_slice_indices qs []).
  rewrite <- (flat_map_map (fun q => scene q dt) (fun i => nth i qs [])).
  split; [reflexivity |].
  now rewrite displayed_scenes, map_map.
Qed.

(** *** The solver driver *)

Lemma last_cons {A : Type} (x : A) (l : list A) (d : A) :
  last (x :: l) d = last l x.
Proof.
  revert x d. induction l as [| y l IH]; intros x d; [reflexivity |].
  change (last (x :: y :: l) d) with (last (y :: l) d). now rewrite !IH.
Qed.

Lemma set_latest_same (o : Opti) : set_latest o (latest o) = o.
Proof. now destruct o. Qed.

Lemma index_last_decision_vector (inst n : nat) :
  Py.index (decision_vectors inst (S n)) (-1) = Some (OptiVar inst n nq).
Proof. rewrite decision_vectors_succ. apply index_minus_one. Qed.

(** *** The decision vectors of the problem *)

Lemma is_active_In (o : Opti) (i : nat) :
  is_active o i = true <-> In i (problem_vars o).
Proof.
  unfold is_active. rewrite existsb_exists. split.
  - intros (j & Hin & E). apply Nat.eqb_eq in E. now subst j.
  - intros Hin. exists i. split; [exact Hin | apply Nat.eqb_refl].
Qed.

(** The decision vectors in the running cost after [k] turns of the loop:
    none when the weight is zero, those of index 0 to [k] if not. *)
Lemma running_vars (inst n k : nat) :
  (k <= n)%nat ->
  exists e,
    running (decision_vectors inst (S n)) (Py.range (Z.of_nat k)) (SConst 0) = Some e /\
    forall i, In i (svars e) <-> w_run <> 0 /\ (1 <= k)%nat /\ (i <= k)%nat.
Proof.
  induction k as [| k IH]; intros Hk.
  - exists (SConst 0). split; [reflexivity |]. cbn. intros i. split; [tauto | lia].
  - destruct IH as (e & He & Hv); [lia |].
    rewrite range_succ, running_app, He. cbn [running].
    replace (Z.of_nat k + 1)%Z with (Z.of_nat (S k)) by lia.
    rewrite !index_of_nat, !decision_vectors_nth by lia.
    eexists. split; [reflexivity |].
    intros i. cbn [svars vvars is_zero orb app]. rewrite in_app_iff, Hv.
    destruct (Req_dec_T w_run 0) as [Hz | Hnz]; cbn [orb In app].
    + split; [intros [H | []]; tauto | tauto].
    + split.
      * intros [(_ & _ & Hi) | [<- | [<- | []]]]; repeat split; auto; lia.
      * intros (_ & _ & Hi).
        destruct (Nat.eq_dec i (S k)) as [-> | Hne]; [right; right; now left |].
        destruct (Nat.eq_dec i k) as [-> | Hne']; [right; now left |].
        left. repeat split; auto; lia.
Qed.

(** The decision vectors of the script's problem: the first, which the
    constraint holds; all of them when the running weight is not zero and
    there is a step; the last when the terminal weight is not zero. *)
Lemma setup_active (inst : nat) :
  (0 <= T)%Z ->
  exists o,
    setup inst = Some (o, decision_vectors inst (S horizon)) /\
    forall i,
      is_active o i = true <->
      i = 0%nat \/
      (w_run <> 0 /\ (1 <= horizon)%nat /\ (i <= horizon)%nat) \/
      (w_term <> 0 /\ i = horizon).
Proof.
  intros HT. unfold setup, build, horizon.
  destruct (Z_of_nat_complete T HT) as [n Hn]. rewrite Hn, Nat2Z.id.
  replace (Z.of_nat n + 1)%Z with (Z.of_nat (S n)) by lia.
  rewrite declare_range.
  rewrite (index_of_nat (decision_vectors inst (S n)) 0 : Py.index _ 0%Z = _).
  rewrite decision_vectors_nth by lia.
  destruct (running_vars inst n n) as (e & He & Hv); [lia |].
  rewrite He, index_of_nat, decision_vectors_nth by lia.
  eexists. split; [reflexivity |].
  intros i. rewrite is_active_In. unfold problem_vars.
  cbn [objective constraints Opti_callback Opti_solver Opti_minimize Opti_subject_to
       flat_map app svars vvars pvars is_zero orb call error_tool foutput fname finput
       cdata_oMf cq].
  rewrite !in_app_iff, Hv.
  destruct (Req_dec_T w_term 0) as [Hz | Hnz]; cbn [orb In app].
  - split.
    + intros [[H | []] | [<- | []]]; [right; left; exact H | now left].
    + intros [-> | [H | [H _]]]; [right; now left | left; now left | contradiction].
  - split.
    + intros [[H | [<- | []]] | [<- | []]];
        [right; left; exact H | right; right; now split | now left].
    + intros [-> | [H | [_ ->]]];
        [right; now left | left; now left | left; right; now left].
Qed.



Lemma every_vector_last : every_vector_used -> last_vector_used.
Proof. unfold every_vector_used, last_vector_used. tauto. Qed.



Lemma debug_values_unused (inst : nat) (l : list nat) (o : Opti) (i : nat) :
  In i l -> is_active o i = false ->
  Opti_debug_values o (map (fun i => OptiVar inst i nq) l) = None.
Proof.
  intros Hin Hi. induction l as [| j l IH]; [destruct Hin |].
  cbn [map Opti_debug_values]. unfold Opti_debug_value. cbn [vvars forallb].
  destruct Hin as [-> | Hin].
  - now rewrite Hi.
  - destruct (is_active o j); cbn [andb]; [| reflexivity].
    now rewrite (IH Hin).
Qed.

Lemma values_unused (inst : nat) (l : list nat) (o : Opti) (i : nat) :
  In i l -> is_active o i = false ->
  Opti_values o (map (fun i => OptiVar inst i nq) l) = None.
Proof.
  intros Hin Hi. induction l as [| j l IH]; [destruct Hin |].
  cbn [map Opti_values]. unfold Opti_value, Opti_debug_value. cbn [vvars forallb].
  destruct (solved o); [| reflexivity].
  destruct Hin as [-> | Hin].
  - now rewrite Hi.
  - destruct (is_active o j); cbn [andb]; [| reflexivity].
    now rewrite (IH Hin).
Qed.

(** The iterations of a solve whose callback is the script's, on a problem
    the last decision vector is part of: the callback does not raise; every
    iterate [x] becomes the current value of the Opti and has its last
    decision vector shown; nothing else of the Opti changes. *)
Lemma iterate_spec (inst n : nat) (its : list (list vec)) (i : nat) (w : World) :
  on_iterate (opti w) = Some (DisplayLastOf (decision_vectors inst (S n))) ->
  is_active (opti w) n = true ->
  exists w',
    iterate its i w = (w', None) /\
    opti w' = set_latest (opti w) (last its (latest (opti w))) /\
    events w' = events w ++ flat_map (fun x => scene (nth n x []) displayScene_dt) its /\
    stdout w' = stdout w.
Proof.
  revert i w. induction its as [| x its IH]; intros i w Hcb Hact.
  - exists w. cbn. now rewrite set_latest_same, app_nil_r.
  - cbn [iterate]. cbn [set_opti opti set_latest on_iterate]. rewrite Hcb.
    cbn [run_callback]. rewrite index_last_decision_vector.
    unfold Opti_debug_value at 1. cbn [vvars forallb opti].
    change (is_active _ n) with (is_active (opti w) n) at 1.
    rewrite Hact. cbn [andb veval latest].
    match goal with |- context [iterate its (S i) ?w2] =>
      destruct (IH (S i) w2 Hcb Hact) as (w' & Hit & Ho & He & Hs)
    end.
    exists w'. rewrite Hit. split; [reflexivity |].
    rewrite Ho, He, Hs, last_cons. cbn. rewrite <- app_assoc.
    repeat split; reflexivity.
Qed.




(** The [try] block on a problem that one of the decision vectors is no part
    of, the last being part of it: the read of the trajectory raises when the
    solve has returned, the diagnostic is printed in every case, and the read
    of the [except] part raises in its turn. *)
Lemma solve_unused (inst n : nat) (w : World) (j : nat) :
  on_iterate (opti w) = Some (DisplayLastOf (decision_vectors inst (S n))) ->
  is_active (opti w) n = true ->
  (j <= n)%nat -> is_active (opti w) j = false ->
  exists w',
    solve w (decision_vectors inst (S n)) = (w', inl RuntimeError) /\
    events w' =
      events w ++ flat_map (fun x => scene (nth n x []) displayScene_dt)
                           (iterates (ipopt (opti w))) /\
    stdout w' = stdout w ++ [diagnostic].
Proof.
  intros Hcb Hlast Hj Hunused. unfold solve, Opti_solve_limited.
  destruct (iterate_spec inst n (iterates (ipopt (opti w))) 0 w Hcb Hlast)
    as (w' & Hit & Ho & He & Hout).
  rewrite Hit.
  assert (Hin : In j (seq 0 (S n))) by (apply in_seq; lia).
  destruct (failure (ipopt (opti w))) as [e |].
  - exists (print diagnostic w'). split; [| split].
    + cbn zeta.
      replace (Opti_debug_values (opti (print diagnostic w'))
                 (decision_vectors inst (S n))) with (@None (list vec)).
      * reflexivity.
      * symmetry. change (opti (print diagnostic w')) with (opti w'). rewrite Ho.
        apply (debug_values_unused inst _ _ j Hin). exact Hunused.
    + change (events (print diagnostic w')) with (events w'). exact He.
    + change (stdout (print diagnostic w')) with (stdout w' ++ [diagnostic]).
      now rewrite Hout.
  - exists (print diagnostic (set_opti w' (mark_solved (opti w')))).
    split; [| split].
    + change (opti (set_opti w' (mark_solved (opti w')))) with (mark_solved (opti w')).
      rewrite Ho.
      replace (Opti_values _ (decision_vectors inst (S n))) with (@None (list vec))
        by (symmetry; apply (values_unused inst _ _ j Hin); exact Hunused).
      cbn zeta.
      replace (Opti_debug_values _ (decision_vectors inst (S n))) with (@None (list vec))
        by (symmetry; apply (debug_values_unused inst _ _ j Hin); exact Hunused).
      reflexivity.
    + change (events (print diagnostic (set_opti w' (mark_solved (opti w')))))
        with (events w').
      exact He.
    + change (stdout (print diagnostic (set_opti w' (mark_solved (opti w')))))
        with (stdout w' ++ [diagnostic]).
      now rewrite Hout.
Qed.

Lemma displayScene_loop_frame (l : list vec) (dt : R) (w : World) :
  opti (fold_left (fun w q => displayScene q dt w) l w) = opti w /\
  stdout (fold_left (fun w q => displayScene q dt w) l w) = stdout w /\
  data (fold_left (fun w q => displayScene q dt w) l w) =
    match rev l with
    | [] => data w
    | q :: _ => framesForwardKinematics (data w) q
    end.
Proof.
  revert w. induction l as [| q l IH]; intros w; [now cbn |].
  cbn [fold_left]. destruct (IH (displayScene q dt w)) as (Ho & Hs & Hd).
  rewrite Ho, Hs, Hd. cbn [rev].
  destruct (rev l) as [| q' r]; repeat split; reflexivity.
Qed.

(** The Opti of the script's problem, with what the properties below use of
    it. *)
Lemma setup_problem (inst : nat) :
  (0 <= T)%Z ->
  exists o,
    setup inst = Some (o, decision_vectors inst (S horizon)) /\
    on_iterate o = Some (DisplayLastOf (decision_vectors inst (S horizon))) /\
    forall i,
      is_active o i = true <->
      i = 0%nat \/
      (w_run <> 0 /\ (1 <= horizon)%nat /\ (i <= horizon)%nat) \/
      (w_term <> 0 /\ i = horizon).
Proof.
  intros HT.
  destruct (setup_ok inst HT) as (o & Hs & _ & _ & _ & _ & _ & Hcb & _).
  destruct (setup_active inst HT) as (o' & Hs' & Hact).
  rewrite Hs in Hs'. injection Hs' as <-.
  exists o. split; [exact Hs |]. split; [exact Hcb | exact Hact].
Qed.



(** *** The script as a whole *)

(** X1. The script gets through its problem section exactly when the horizon
    is not negative: with [T < 0] the list of decision vectors is empty and
    [var_qs[0]] is out of range, before anything is solved or shown. *)
Theorem main_fails_iff (inst : nat) :
  main inst = None <-> (T < 0)%Z.
Proof.
  unfold main. split.
  - intros Hnone. destruct (Z_lt_le_dec T 0) as [Hneg | Hpos]; [exact Hneg |].
    destruct (setup_ok inst Hpos) as (o & Hs & _). rewrite Hs in Hnone.
    destruct (solve _ _) as [w [e | sol_qs]] in Hnone; discriminate.
  - intros Hneg. now rewrite setup_negative.
Qed.


(** X16. With a running weight of zero, a terminal weight that is not and a
    horizon [T >= 2], the steps between the first and the last are part of no
    term of the problem, and casadi has no value for them.  Whether the solve
    returns or raises, the script prints the diagnostic and stops on the
    exception of the read of the [except] part, which nothing catches: the
    viewer has been shown the iterates, and no trajectory. *)
Theorem main_unused_vectors (inst : nat) :
  (2 <= T)%Z -> w_run = 0 -> w_term <> 0 ->
  exists o var_qs w,
    setup inst = Some (o, var_qs) /\
    main inst = Some (w, Some RuntimeError) /\
    events w =
      flat_map (fun x => scene (nth (Z.to_nat T) x []) (1 / 10)) (iterates (ipopt o)) /\
    stdout w = [diagnostic].
Proof.
  intros HT Hrun Hterm.
  destruct (setup_problem inst) as (o & Hs & Hcb & Hact); [lia |].
  pose (w0 := {| opti := o; data := createData; events := []; stdout := [] |}).
  assert (Hlast : is_active o horizon = true)
    by (apply Hact; right; right; now split).
  assert (Hunused : is_active o 1 = false).
  { destruct (is_active o 1) eqn:E; [| reflexivity].
    apply Hact in E. unfold horizon in E.
    destruct E as [E | [[E _] | [_ E]]]; [discriminate | contradiction | lia]. }
  destruct (solve_unused inst horizon w0 1 Hcb Hlast) as (w1 & Hsolve & He & Hout);
    [unfold horizon; lia | exact Hunused |].
  exists o, (decision_vectors inst (S horizon)), w1.
  split; [exact Hs |].
  unfold main. rewrite Hs. fold w0. rewrite Hsolve.
  split; [reflexivity |]. split; [exact He | exact Hout].
Qed.

(** *** The problem section, twice *)

(** The problem section overwrites every global before it reads it: what it
    leaves depends on the number of Opti instances only. *)
Lemma problem_section_build (g : Globals) :
  problem_section g =
  match build (instances g) with
  | Some (o, var_qs, totalcost) =>
      Some {| instances := S (instances g); global_opti := Some o;
              global_var_qs := Some var_qs; global_totalcost := Some totalcost |}
  | None => None
  end.
Proof.
  unfold problem_section, and_then, line_88, line_89, line_90, line_91,
    lines_93_94, line_95, build.
  cbn [global_opti global_var_qs global_totalcost instances].
  destruct (declare (Py.range (T + 1)) (casadi_Opti (instances g))) as [o var_qs].
  cbn [global_opti global_var_qs global_totalcost instances].
  destruct (Py.index var_qs 0); [| reflexivity].
  cbn [global_opti global_var_qs global_totalcost instances].
  destruct (running var_qs (Py.range T) (SConst 0)); [| reflexivity].
  cbn [global_opti global_var_qs global_totalcost instances].
  destruct (Py.index var_qs T); reflexivity.
Qed.

(** C8. The problem section run twice in a row, from whatever the globals
    hold at first: the second run succeeds as the first did, on a new Opti
    instance; it leaves a problem of the same shape (the variables and the
    constraint of the first run are not added to) and an objective that has
    the value of the first at every assignment of the decision vectors (the
    cost of the first run is not added to). *)
Theorem problem_section_twice (g g1 : Globals) :
  problem_section g = Some g1 ->
  exists g2 o1 o2,
    problem_section g1 = Some g2 /\
    global_opti g1 = Some o1 /\ global_opti g2 = Some o2 /\
    instance o2 = S (instance o1) /\
    variables o2 = variables o1 /\
    length (constraints o2) = length (constraints o1) /\
    problem_shape g2 = Some (repeat nq (Z.to_nat (T + 1)), 1%nat) /\
    forall x, totalcost_at g2 x = totalcost_at g1 x /\
              totalcost_at g1 x = Some (spec_objective x).
Proof.
  intros H1. rewrite problem_section_build in H1.
  destruct (Z_lt_le_dec T 0) as [Hneg | Hpos].
  - pose proof (setup_negative (instances g) Hneg) as Hnone.
    unfold setup in Hnone. destruct (build (instances g)) as [[[o vs] tc] |];
      discriminate.
  - destruct (build_ok (instances g) Hpos) as (tc1 & Hb1 & Hv1).
    rewrite Hb1 in H1. injection H1 as <-.
    destruct (build_ok (S (instances g)) Hpos) as (tc2 & Hb2 & Hv2).
    eexists. eexists. eexists.
    rewrite problem_section_build. cbn [instances]. rewrite Hb2.
    split; [reflexivity |].
    cbn [global_opti global_totalcost].
    split; [reflexivity |]. split; [reflexivity |].
    cbn [instance variables constraints length].
    split; [reflexivity |]. split; [reflexivity |]. split; [reflexivity |].
    split.
    + unfold problem_shape. cbn [global_opti option_map variables constraints length].
      unfold horizon. do 3 f_equal. lia.
    + intros x. unfold totalcost_at. cbn [global_totalcost option_map].
      now rewrite Hv1, Hv2.
Qed.


(** X3. The last two calls of the script, on any trajectory: the viewer
    shows [q0] for one second, then the steps of the trajectory after the
    first, each for [dt].  What is seen is the trajectory with its first
    element replaced by [q0]. *)
Theorem playback_shows_trajectory (first : vec) (rest : list vec) (dt : R) (w : World) :
  let shown := scene q0 1 ++ flat_map (fun q => scene q dt) rest in
  events (displayTraj (first :: rest) dt (displayScene q0 1 w)) = events w ++ shown /\
  displayed shown = (q0, 1) :: map (fun q => (q, dt)) rest /\
  map fst (displayed shown) = q0 :: rest.
Proof.
  cbn zeta. unfold displayTraj. rewrite displayScene_loop, displayScene_events.
  cbn [Py.tail_slice skipn]. rewrite <- app_assoc.
  split; [reflexivity |].
  assert (E : displayed (scene q0 1 ++ flat_map (fun q => scene q dt) rest) =
              (q0, 1) :: map (fun q => (q, dt)) rest).
  { cbn. now rewrite displayed_scenes. }
  split; [exact E |]. rewrite E. cbn [map fst]. rewrite map_map. cbn [fst].
  now rewrite map_id.
Qed.

(** X4. The trajectory player only observes: it leaves the Opti and standard
    output as they were.  Of pinocchio's data it leaves the placements at the
    last configuration it has shown, and the data it found when it has shown
    none (a trajectory of less than two elements). *)
Theorem displayTraj_observes (qs : list vec) (dt : R) (w : World) :
  opti (displayTraj qs dt w) = opti w /\
  stdout (displayTraj qs dt w) = stdout w /\
  data (displayTraj qs dt w) =
    match rev (Py.tail_slice qs) with
    | [] => data w
    | q :: _ => framesForwardKinematics (data w) q
    end.
Proof. unfold displayTraj. apply displayScene_loop_frame. Qed.

End Script.

(** ** The properties on the one-joint arm

    The slider, with its target at position 1 and its start at position 0. *)

Lemma Slider_laws : PinocchioLaws Slider.P.
Proof.
  constructor; cbn; intros; try lra.
  unfold vector, zero6. cbn. split.
  - intros E. now injection E.
  - intros ->. reflexivity.
Qed.

(** With [w_run = 0] and [w_term = 1] over the horizon 2, the trajectory that
    wanders to 5 before it reaches the target is a minimizer. *)
Lemma Slider_wandering_minimizer :
  exists o var_qs,
    setup (P := Slider.P) 1 [0] 2 0 1 0%nat = Some (o, var_qs) /\
    minimizer o [[0]; [5]; [1]].
Proof.
  destruct (setup_ok (P := Slider.P) 1 [0] 2 0 1 0%nat)
    as (o & Hs & _ & Hvars & Hcons & Hcost & _); [lia |].
  exists o, (decision_vectors (P := Slider.P) 0 (S (horizon 2))).
  split; [exact Hs |]. split.
  - apply (feasible_iff (P := Slider.P) [0] 2 o 0%nat); auto.
  - intros y _. rewrite !Hcost. unfold spec_objective, spec_poseError, horizon.
    change (Z.to_nat 2) with 2%nat. cbn.
    pose proof (sumsqr_nonneg
      (vector (log6 (SE3_mul (SE3_inverse
         (forwardKinematics (P := Slider.P) (nth 2 y []))) 1)))) as Hpos.
    cbn in Hpos. lra.
Qed.

(** C5, as stated, fails: a minimizer need not stay at [q0] on the steps
    before the last. *)
Lemma intermediate_steps_not_forced :
  ~ (forall o var_qs,
       setup (P := Slider.P) 1 [0] 2 0 1 0%nat = Some (o, var_qs) ->
       forall x, minimizer o x ->
       forall t, (1 <= t <= 2 - 1)%nat -> nth t x [] = [0]).
Proof.
  intros H.
  destruct Slider_wandering_minimizer as (o & var_qs & Hs & Hmin).
  specialize (H o var_qs Hs _ Hmin 1%nat ltac:(lia)).
  cbn in H. injection H as H. lra.
Qed.



(** *** The theorems at work on the slider *)

Lemma built_problem_witness :
  (0 <= 2)%Z /\
  exists o var_qs,
    setup (P := Slider.P) 1 [0] 2 (1 / 10) 1 0%nat = Some (o, var_qs) /\
    length var_qs = 3%nat /\
    variables o = [1; 1; 1]%nat.
Proof.
  split; [lia |].
  destruct (built_problem (P := Slider.P) 1 [0] 2 (1 / 10) 1 0%nat ltac:(lia))
    as (o & var_qs & Hs & Hlen & _ & Hvars & _).
  exists o, var_qs. split; [exact Hs |].
  assert (H3 : length var_qs = 3%nat) by lia.
  split; [exact H3 |]. rewrite Hvars, H3. reflexivity.
Defined.


Lemma poseError_zero_iff_witness :
  PinocchioLaws Slider.P /\
  (poseError (P := Slider.P) 1 [1] = zero6 <->
   forwardKinematics (P := Slider.P) [1] = 1).
Proof.
  split; [exact Slider_laws |].
  exact (poseError_zero_iff (P := Slider.P) (L := Slider_laws) 1 [1]).
Defined.

Lemma terminal_only_minimizers_witness :
  (1 <= 2)%Z /\ 0 = 0 /\
  exists o var_qs,
    setup (P := Slider.P) 1 [0] 2 0 1 0%nat = Some (o, var_qs) /\
    forall x y, minimizer o x -> feasible o y ->
                nth 2 y [] = nth 2 x [] -> minimizer o y.
Proof.
  split; [lia |]. split; [reflexivity |].
  destruct (terminal_only_minimizers (P := Slider.P) 1 [0] 2 0 1 0%nat
              ltac:(lia) eq_refl) as (o & var_qs & Hs & _ & Hfree).
  exists o, var_qs. split; [exact Hs | exact Hfree].
Defined.

Lemma constant_trajectory_optimal_witness :
  (0 <= 2)%Z /\ 0 = 0 /\ 0 < 1 /\ length [0] = nq (Pinocchio := Slider.P) /\
  exists o var_qs,
    setup (P := Slider.P) 1 [0] 2 1 0 0%nat = Some (o, var_qs) /\
    minimizer o [[0]; [0]; [0]] /\
    forall x, feasible o x -> cost o x = 0 -> x = [[0]; [0]; [0]].
Proof.
  split; [lia |]. split; [reflexivity |]. split; [lra |]. split; [reflexivity |].
  destruct (constant_trajectory_optimal (P := Slider.P) 1 [0] 2 1 0 0%nat
              ltac:(lia) eq_refl ltac:(lra) eq_refl)
    as (o & var_qs & Hs & Hmin & _ & Huniq & _).
  exists o, var_qs. split; [exact Hs |]. split; [exact Hmin | exact Huniq].
Defined.

Lemma zero_horizon_witness :
  0%Z = 0%Z /\ length [0] = nq (Pinocchio := Slider.P) /\
  exists o var_qs,
    setup (P := Slider.P) 1 [0] 0 (1 / 10) 1 0%nat = Some (o, var_qs) /\
    variables o = [1%nat] /\
    forall x, minimizer o x <-> x = [[0]].
Proof.
  split; [reflexivity |]. split; [reflexivity |].
  destruct (zero_horizon (P := Slider.P) 1 [0] 0 (1 / 10) 1 0%nat eq_refl eq_refl)
    as (o & var_qs & Hs & _ & Hvars & _ & _ & _ & Hmin).
  exists o, var_qs. split; [exact Hs |]. split; [exact Hvars | exact Hmin].
Defined.


(** ** The snippet generator: properties *)

Section GenerateProperties.
Import PyStr Generate.
Context {Meta : Type} (generated : str -> str).

(** *** Strings *)

Lemma startswith_app (p s : str) : startswith (p ++ s) p = true.
Proof.
  induction p as [| a p IH]; [reflexivity |].
  cbn. now rewrite N.eqb_refl, IH.
Qed.

Lemma endswith_app (s p : str) : endswith (s ++ p) p = true.
Proof. unfold endswith. rewrite rev_app_distr. apply startswith_app. Qed.

Lemma eqb_eq (a b : str) : eqb a b = true <-> a = b.
Proof. unfold eqb. destruct (list_eq_dec N.eq_dec a b); split; congruence. Qed.





(** *** The two markers *)


(** *** Loading a snippet in a cell *)

Lemma asks_loaded (d : str) (body : list str) (m : Meta) :
  asks d {| source := loaded d :: body; meta := m |} = true.
Proof.
  unfold asks, loaded. cbn [source].
  change (text "# %load ") with (text "# " ++ text "%load ").
  rewrite <- app_assoc, endswith_app. reflexivity.
Qed.

(** X6. A cell that has loaded a snippet still asks for it: the load of a
    later block of the same file replaces the load of the former, lines and
    all, and leaves the other cells alone.  Loading twice the same lines is
    loading them once. *)
Theorem load_again (d : str) (body body' : list str) (cell : Cell Meta) :
  load d body' (load d body cell) = load d body' cell.
Proof.
  unfold load at 2 3. destruct (asks d cell) eqn:Hasks.
  - unfold load. now rewrite asks_loaded.
  - unfold load. now rewrite Hasks.
Qed.

(** *** The loop on the lines *)

Lemma is_plain_spec (line : str) :
  is_plain line = true -> is_open line = false /\ is_end line = false.
Proof.
  unfold is_plain. rewrite andb_true_iff, !negb_true_iff. tauto.
Qed.

Lemma step_plain_closed (name : str) (st : State Meta) (n : nat) (line : str) :
  is_plain line = true -> dest st = None ->
  step generated name st n line = inr st.
Proof.
  intros Hp Hd. apply is_plain_spec in Hp. destruct Hp as [Ho He].
  unfold step. now rewrite Ho, He, Hd.
Qed.

Lemma step_plain_open (name : str) (st : State Meta) (n : nat) (line d : str) :
  is_plain line = true -> dest st = Some d ->
  step generated name st n line =
  inr {| content := content st ++ [line]; dest := Some d; cells := cells st;
         written := written st; printed := printed st |}.
Proof.
  intros Hp Hd. apply is_plain_spec in Hp. destruct Hp as [Ho He].
  unfold step. now rewrite Ho, He, Hd.
Qed.

Lemma step_opening (name : str) (st : State Meta) (n : nat) (line word : str) :
  is_open line = true -> dest st = None ->
  nth_error (split line) 2 = Some word ->
  step generated name st n line =
  inr {| content := content st;
         dest := Some (generated (name ++ text "_" ++ word));
         cells := cells st; written := written st; printed := printed st |}.
Proof. intros Ho Hd Hw. unfold step. now rewrite Ho, Hd, Hw. Qed.


Lemma scan_app (name : str) (l1 l2 : list str) (n : nat) (st : State Meta) :
  scan generated name (l1 ++ l2) n st =
  match scan generated name l1 n st with
  | (st1, None) => scan generated name l2 (n + length l1) st1
  | (st1, Some e) => (st1, Some e)
  end.
Proof.
  revert n st. induction l1 as [| line l1 IH]; intros n st.
  - cbn. now rewrite Nat.add_0_r.
  - cbn [app scan length]. destruct (step generated name st n line) as [e | st'].
    + reflexivity.
    + rewrite IH. now replace (S n + length l1)%nat with (n + S (length l1))%nat by lia.
Qed.

Lemma scan_plain_closed (name : str) (ls : list str) (n : nat) (st : State Meta) :
  forallb is_plain ls = true -> dest st = None ->
  scan generated name ls n st = (st, None).
Proof.
  revert n. induction ls as [| line ls IH]; intros n Hp Hd; [reflexivity |].
  cbn in Hp. apply andb_true_iff in Hp. destruct Hp as [Hline Hls].
  cbn [scan]. rewrite step_plain_closed by assumption. now apply IH.
Qed.

Lemma scan_plain_open (name : str) (ls : list str) (n : nat) (st : State Meta) (d : str) :
  forallb is_plain ls = true -> dest st = Some d ->
  scan generated name ls n st =
  ({| content := content st ++ ls; dest := Some d; cells := cells st;
      written := written st; printed := printed st |}, None).
Proof.
  revert n st. induction ls as [| line ls IH]; intros n st Hp Hd.
  - cbn. rewrite app_nil_r, <- Hd. now destruct st.
  - cbn in Hp. apply andb_true_iff in Hp. destruct Hp as [Hline Hls].
    cbn [scan]. rewrite (step_plain_open name st n line d) by assumption.
    rewrite IH by (assumption || reflexivity). cbn.
    now rewrite <- app_assoc.
Qed.


(** *** One file *)

(** The call on a folder of one file. *)
Lemma generate_one (ipynb folder : str) (cells0 : list (Cell Meta)) (f : File) :
  generate generated ipynb folder cells0 [f] =
  match scan generated (stem f) (lines f) 0
          {| content := []; dest := None; cells := cells0; written := [];
             printed := [text "processing " ++ ipynb ++ text " with scripts in " ++ folder;
                         text " processing " ++ path f] |} with
  | (st, Some e) =>
      {| files_written := written st; lines_printed := printed st; notebook := inl e |}
  | (st, None) =>
      {| files_written := written st; lines_printed := printed st;
         notebook := inr (cells st) |}
  end.
Proof.
  unfold generate. cbn [scan_files cells written printed app].
  destruct (scan _ _ _ _ _) as [st [e |]]; reflexivity.
Qed.



(** X8. A block that is not closed before the end of its file is dropped
    without a word: nothing is written, no exception is raised, and the
    notebook is written back with the cells it had. *)
Theorem generate_unclosed (ipynb folder : str) (cells0 : list (Cell Meta))
        (p name : str) (pre body : list str) (opening word : str) :
  forallb is_plain pre = true ->
  is_open opening = true -> nth_error (split opening) 2 = Some word ->
  forallb is_plain body = true ->
  generate generated ipynb folder cells0
    [{| path := p; stem := name; lines := pre ++ opening :: body |}] =
  {| files_written := [];
     lines_printed := [text "processing " ++ ipynb ++ text " with scripts in " ++ folder;
                       text " processing " ++ p];
     notebook := inr cells0 |}.
Proof.
  intros Hpre Ho Hw Hbody.
  rewrite generate_one. cbn [stem lines path].
  rewrite scan_app, scan_plain_closed by auto.
  cbn [scan]. rewrite (step_opening name _ _ opening word) by auto.
  rewrite (scan_plain_open name body _ _ (generated (name ++ text "_" ++ word)))
    by auto.
  reflexivity.
Qed.

(** X9. An opening line inside an open block raises the syntax error of a
    block open twice, with the number of that line counted from one; no file
    has been written and the notebook is not written back. *)
Theorem generate_open_twice (ipynb folder : str) (cells0 : list (Cell Meta))
        (p name : str) (pre body rest : list str) (opening again word : str) :
  forallb is_plain pre = true ->
  is_open opening = true -> nth_error (split opening) 2 = Some word ->
  forallb is_plain body = true -> is_open again = true ->
  generate generated ipynb folder cells0
    [{| path := p; stem := name; lines := pre ++ opening :: body ++ again :: rest |}] =
  {| files_written := [];
     lines_printed := [text "processing " ++ ipynb ++ text " with scripts in " ++ folder;
                       text " processing " ++ p];
     notebook := inl (SyntaxError open_twice (length pre + length body + 2)) |}.
Proof.
  intros Hpre Ho Hw Hbody Hagain.
  rewrite generate_one. cbn [stem lines path].
  rewrite scan_app, scan_plain_closed by auto.
  cbn [scan]. rewrite (step_opening name _ _ opening word) by auto.
  rewrite scan_app,
    (scan_plain_open name body _ _ (generated (name ++ text "_" ++ word))) by auto.
  cbn [scan]. unfold step. rewrite Hagain. cbn [dest written printed].
  do 3 f_equal. lia.
Qed.


(** X11. An opening line of less than three words has no name for its
    file: [line.split()[2]] is out of range and the call stops on an index
    error, before any file is written. *)
Theorem generate_unnamed (ipynb folder : str) (cells0 : list (Cell Meta))
        (p name : str) (pre rest : list str) (opening : str) :
  forallb is_plain pre = true ->
  is_open opening = true -> (length (split opening) <= 2)%nat ->
  generate generated ipynb folder cells0
    [{| path := p; stem := name; lines := pre ++ opening :: rest |}] =
  {| files_written := [];
     lines_printed := [text "processing " ++ ipynb ++ text " with scripts in " ++ folder;
                       text " processing " ++ p];
     notebook := inl IndexError |}.
Proof.
  intros Hpre Ho Hwords.
  rewrite generate_one. cbn [stem lines path].
  rewrite scan_app, scan_plain_closed by auto.
  cbn [scan]. unfold step. rewrite Ho. cbn [dest].
  assert (Hnone : nth_error (split opening) 2 = None)
    by (apply nth_error_None; exact Hwords).
  rewrite Hnone. reflexivity.
Qed.

(** *** The cells and the disk *)

Lemma on_disk_last (ws : list (str * str)) (d' s d : str) :
  on_disk (ws ++ [(d', s)]) d = if eqb d' d then Some s else on_disk ws d.
Proof.
  induction ws as [| [d1 s1] ws IH].
  - cbn. now destruct (eqb d' d).
  - cbn [app on_disk]. rewrite IH.
    destruct (eqb d' d); [reflexivity |]. reflexivity.
Qed.

Lemma in_step_load (ws : list (str * str)) (d : str) (body : list str) (c0 c : Cell Meta) :
  in_step ws c0 c -> in_step (ws ++ [(d, join body)]) c0 (load d body c).
Proof.
  intros [Hmeta Hc]. unfold load. destruct (asks d c) eqn:Hasks.
  - split; [exact Hmeta |]. right. exists d, body. cbn [source].
    split; [reflexivity |]. rewrite on_disk_last.
    now destruct (eqb_eq d d) as [_ ->].
  - split; [exact Hmeta |]. destruct Hc as [-> | (d1 & body1 & Hsrc & Hdisk)].
    + now left.
    + right. exists d1, body1. split; [exact Hsrc |].
      rewrite on_disk_last. destruct (eqb d d1) eqn:E; [| exact Hdisk].
      apply eqb_eq in E. subst d1.
      destruct c as [src m]. cbn [source] in Hsrc. subst src.
      now rewrite asks_loaded in Hasks.
Qed.

Lemma step_in_step (cells0 : list (Cell Meta)) (name : str) (st st' : State Meta)
      (n : nat) (line : str) :
  step generated name st n line = inr st' ->
  Forall2 (in_step (written st)) cells0 (cells st) ->
  Forall2 (in_step (written st')) cells0 (cells st').
Proof.
  unfold step. intros Hstep Hinv.
  destruct (is_open line).
  - destruct (dest st); [discriminate |].
    destruct (nth_error (split line) 2); [| discriminate].
    injection Hstep as <-. exact Hinv.
  - destruct (is_end line).
    + destruct (dest st) as [d |]; [| discriminate].
      injection Hstep as <-. cbn [written cells].
      induction Hinv as [| c0 c l0 l Hc _ IH]; cbn [map]; constructor.
      * now apply in_step_load.
      * exact IH.
    + destruct (dest st); injection Hstep as <-; exact Hinv.
Qed.

Lemma scan_in_step (cells0 : list (Cell Meta)) (name : str) (ls : list str)
      (n : nat) (st st' : State Meta) (e : option Exception) :
  scan generated name ls n st = (st', e) ->
  Forall2 (in_step (written st)) cells0 (cells st) ->
  Forall2 (in_step (written st')) cells0 (cells st').
Proof.
  revert n st. induction ls as [| line ls IH]; intros n st Hscan Hinv.
  - injection Hscan as <- _. exact Hinv.
  - cbn [scan] in Hscan.
    destruct (step generated name st n line) as [x | st1] eqn:Hstep.
    + injection Hscan as <- _. exact Hinv.
    + apply (IH _ _ Hscan). now apply (step_in_step cells0 name st st1 n line).
Qed.

Lemma scan_files_in_step (cells0 : list (Cell Meta)) (files : list File)
      (st st' : State Meta) (e : option Exception) :
  scan_files generated files st = (st', e) ->
  Forall2 (in_step (written st)) cells0 (cells st) ->
  Forall2 (in_step (written st')) cells0 (cells st').
Proof.
  revert st. induction files as [| f files IH]; intros st Hscan Hinv.
  - injection Hscan as <- _. exact Hinv.
  - cbn [scan_files] in Hscan.
    destruct (scan _ _ _ _ _) as [st1 [x |]] eqn:Hfile.
    + injection Hscan as <- _.
      now apply (scan_in_step cells0 _ _ _ _ _ _ Hfile).
    + apply (IH _ Hscan). now apply (scan_in_step cells0 _ _ _ _ _ _ Hfile).
Qed.

(** X12. When the call writes the notebook back, it has as many cells as
    before, in the same order and each with the [meta] it had, and every cell
    is either the cell it was or a load of a file together with exactly the
    lines that file holds on the disk after the call. *)
Theorem generate_cells_match_disk (ipynb folder : str) (cells0 cells1 : list (Cell Meta))
        (files : list File) :
  notebook (generate generated ipynb folder cells0 files) = inr cells1 ->
  length cells1 = length cells0 /\
  map meta cells1 = map meta cells0 /\
  forall i c0 c1,
    nth_error cells0 i = Some c0 -> nth_error cells1 i = Some c1 ->
    c1 = c0 \/
    exists d body,
      source c1 = loaded d :: body /\
      on_disk (files_written (generate generated ipynb folder cells0 files)) d
        = Some (join body).
Proof.
  unfold generate.
  destruct (scan_files _ _ _) as [st [e |]] eqn:Hscan; cbn [notebook files_written];
    [discriminate |].
  intros Hnb. injection Hnb as <-.
  assert (Hinv : Forall2 (in_step (written st)) cells0 (cells st)).
  { apply (scan_files_in_step cells0 _ _ _ _ Hscan). cbn [written cells].
    clear. induction cells0; constructor; auto. split; auto. }
  clear Hscan. revert Hinv. generalize (cells st) as cs. generalize (written st) as ws.
  intros ws cs Hinv. induction Hinv as [| c0 c l0 l [Hmeta Hc] _ (IHlen & IHmeta & IHnth)].
  - repeat split. intros [| i] c0 c1; discriminate.
  - cbn [length map]. rewrite IHlen, IHmeta, Hmeta.
    repeat split. intros [| i] c0' c1' H0 H1; cbn in H0, H1.
    + injection H0 as <-. injection H1 as <-. exact Hc.
    + now apply (IHnth i).
Qed.

(** *** Several files *)

Lemma step_after (ws : list (str * str)) (ps : list str) (name : str)
      (st : State Meta) (n : nat) (line : str) :
  step generated name (after ws ps st) n line =
  match step generated name st n line with
  | inl e => inl e
  | inr st' => inr (after ws ps st')
  end.
Proof.
  unfold step, after. cbn [content dest cells written printed].
  destruct (is_open line).
  - destruct (dest st) eqn:Hd; [reflexivity |].
    destruct (nth_error (split line) 2); reflexivity.
  - destruct (is_end line).
    + destruct (dest st) eqn:Hd; [| reflexivity].
      cbn [content dest cells written printed]. now rewrite app_assoc.
    + destruct (dest st) eqn:Hd; cbn; rewrite ?Hd; reflexivity.
Qed.

Lemma scan_after (ws : list (str * str)) (ps : list str) (name : str)
      (ls : list str) (n : nat) (st : State Meta) :
  scan generated name ls n (after ws ps st) =
  (after ws ps (fst (scan generated name ls n st)), snd (scan generated name ls n st)).
Proof.
  revert n st. induction ls as [| line ls IH]; intros n st; [reflexivity |].
  cbn [scan]. rewrite step_after.
  destruct (step generated name st n line) as [e | st']; [reflexivity | apply IH].
Qed.

(** The loop on the files looks at the cells only: what was written and
    printed before stays in front of what it writes and prints. *)
Lemma scan_files_fresh (files : list File) (st : State Meta) :
  cells (fst (scan_files generated files st)) =
    cells (fst (scan_files generated files (fresh (cells st)))) /\
  written (fst (scan_files generated files st)) =
    written st ++ written (fst (scan_files generated files (fresh (cells st)))) /\
  printed (fst (scan_files generated files st)) =
    printed st ++ printed (fst (scan_files generated files (fresh (cells st)))) /\
  snd (scan_files generated files st) =
    snd (scan_files generated files (fresh (cells st))).
Proof.
  revert st. induction files as [| f files IH]; intros st.
  - cbn. now rewrite !app_nil_r.
  - cbn [scan_files fresh cells written printed app].
    set (st0 := {| content := []; dest := None; cells := cells st;
                   written := []; printed := [text " processing " ++ path f] |}).
    replace {| content := []; dest := None; cells := cells st;
               written := written st;
               printed := printed st ++ [text " processing " ++ path f] |}
      with (after (written st) (printed st) st0)
      by (unfold after, st0; cbn; now rewrite app_nil_r).
    rewrite scan_after.
    destruct (scan generated (stem f) (lines f) 0 st0) as [st1 [e |]]; cbn [fst snd].
    + repeat split; reflexivity.
    + destruct (IH (after (written st) (printed st) st1)) as (Hc & Hw & Hp & He).
      destruct (IH st1) as (Hc1 & Hw1 & Hp1 & He1).
      cbn [after cells written printed] in Hc, Hw, Hp, He.
      rewrite Hc, Hw, Hp, He, Hc1, Hw1, Hp1, He1, <- !app_assoc.
      repeat split; reflexivity.
Qed.

Lemma scan_files_app (fs1 fs2 : list File) (st : State Meta) :
  scan_files generated (fs1 ++ fs2) st =
  match scan_files generated fs1 st with
  | (st1, None) => scan_files generated fs2 st1
  | (st1, Some e) => (st1, Some e)
  end.
Proof.
  revert st. induction fs1 as [| f fs1 IH]; intros st; [reflexivity |].
  cbn [app scan_files].
  destruct (scan _ _ _ _ _) as [st1 [e |]]; [reflexivity | apply IH].
Qed.

(** X13. The files are treated one after the other, each from a fresh
    start.  If the call on the first files raises, the call on more files is
    the same call: the files after the exception are not read.  If not, the
    call on all the files writes what the call on the first files writes,
    then what a call on the other files writes from the notebook the first
    call leaves, prints the lines of both (the header once) and leaves the
    notebook of the second. *)
Theorem generate_files_in_turn (ipynb folder : str) (cells0 : list (Cell Meta))
        (fs1 fs2 : list File) :
  match notebook (generate generated ipynb folder cells0 fs1) with
  | inl _ =>
      generate generated ipynb folder cells0 (fs1 ++ fs2) =
      generate generated ipynb folder cells0 fs1
  | inr cells1 =>
      notebook (generate generated ipynb folder cells0 (fs1 ++ fs2)) =
        notebook (generate generated ipynb folder cells1 fs2) /\
      files_written (generate generated ipynb folder cells0 (fs1 ++ fs2)) =
        files_written (generate generated ipynb folder cells0 fs1)
        ++ files_written (generate generated ipynb folder cells1 fs2) /\
      lines_printed (generate generated ipynb folder cells0 (fs1 ++ fs2)) =
        lines_printed (generate generated ipynb folder cells0 fs1)
        ++ skipn 1 (lines_printed (generate generated ipynb folder cells1 fs2))
  end.
Proof.
  unfold generate. rewrite scan_files_app.
  destruct (scan_files generated fs1 _) as [st1 [e |]]; cbn [notebook]; [reflexivity |].
  destruct (scan_files_fresh fs2 st1) as (Hc & Hw & Hp & He).
  match goal with |- context [scan_files generated fs2 ?st] =>
    lazymatch st with
    | st1 => fail
    | _ => destruct (scan_files_fresh fs2 st) as (Hc2 & Hw2 & Hp2 & He2)
    end
  end.
  cbn [cells written printed app] in Hc2, Hw2, Hp2, He2.
  destruct (scan_files generated fs2 st1) as [st [e |]];
    destruct (scan_files generated fs2 {| content := []; dest := None; cells := cells st1;
                                          written := []; printed := _ |}) as [st2 [e2 |]];
    cbn [fst snd] in *; try discriminate;
    cbn [notebook files_written lines_printed];
    rewrite Hw, Hp, Hw2, Hp2; cbn [skipn];
    repeat split; congruence.
Qed.

(** *** A second call *)

Lemma load_all_app (b1 b2 : list (str * list str)) (c : Cell Meta) :
  load_all (b1 ++ b2) c = load_all b2 (load_all b1 c).
Proof. unfold load_all. apply fold_left_app. Qed.

Lemma map_load_all_nil (cs : list (Cell Meta)) : map (load_all []) cs = cs.
Proof. apply map_id. Qed.

(** What a turn of the loop does to the cells does not depend on them: it
    loads no block or one. *)
Lemma step_blocks (name : str) (st : State Meta) (n : nat) (line : str) :
  exists blocks,
    (forall cs,
       step generated name (set_cells st cs) n line =
       match step generated name st n line with
       | inl e => inl e
       | inr st1 => inr (set_cells st1 (map (load_all blocks) cs))
       end) /\
    (forall st1, step generated name st n line = inr st1 ->
                 written st1 = written st ++ map file_of blocks).
Proof.
  unfold step, set_cells. cbn [content dest cells written printed].
  destruct (is_open line).
  - exists []. destruct (dest st).
    + split; [reflexivity | discriminate].
    + destruct (nth_error (split line) 2).
      * split; [intros cs; now rewrite map_load_all_nil |].
        intros st1 H. injection H as <-. cbn. now rewrite app_nil_r.
      * split; [reflexivity | discriminate].
  - destruct (is_end line).
    + destruct (dest st) as [d |].
      * exists [(d, content st)]. split; [reflexivity |].
        intros st1 H. injection H as <-. reflexivity.
      * exists []. split; [reflexivity | discriminate].
    + exists []. destruct (dest st) eqn:Hd.
      * split; [intros cs; cbn; now rewrite map_load_all_nil |].
        intros st1 H. injection H as <-. cbn. now rewrite app_nil_r.
      * split; [intros cs; cbn; now rewrite map_load_all_nil, Hd |].
        intros st1 H. injection H as <-. now rewrite app_nil_r.
Qed.

Lemma scan_blocks (name : str) (ls : list str) (n : nat) (st : State Meta) :
  exists blocks st' e,
    (forall cs, scan generated name ls n (set_cells st cs) =
                (set_cells st' (map (load_all blocks) cs), e)) /\
    written st' = written st ++ map file_of blocks.
Proof.
  revert n st. induction ls as [| line ls IH]; intros n st.
  - exists [], st, None. split; [intros cs; cbn; now rewrite map_load_all_nil |].
    cbn. now rewrite app_nil_r.
  - destruct (step_blocks name st n line) as (b1 & Hstep & Hw1).
    destruct (step generated name st n line) as [x | st1] eqn:E.
    + exists [], st, (Some x). split.
      * intros cs. cbn [scan]. rewrite Hstep. now rewrite map_load_all_nil.
      * cbn. now rewrite app_nil_r.
    + destruct (IH (S n) st1) as (b2 & st' & e & Hscan & Hw2).
      exists (b1 ++ b2), st', e. split.
      * intros cs. cbn [scan]. rewrite Hstep.
        rewrite Hscan, map_map. do 2 f_equal.
        apply map_ext. intros c. now rewrite load_all_app.
      * rewrite Hw2, (Hw1 st1 eq_refl), map_app, app_assoc. reflexivity.
Qed.

Lemma scan_files_blocks (files : list File) (st : State Meta) :
  exists blocks st' e,
    (forall cs, scan_files generated files (set_cells st cs) =
                (set_cells st' (map (load_all blocks) cs), e)) /\
    written st' = written st ++ map file_of blocks.
Proof.
  revert st. induction files as [| f files IH]; intros st.
  - exists [], st, None. split; [intros cs; cbn; now rewrite map_load_all_nil |].
    cbn. now rewrite app_nil_r.
  - set (st0 := {| content := []; dest := None; cells := cells st;
                   written := written st;
                   printed := printed st ++ [text " processing " ++ path f] |}).
    destruct (scan_blocks (stem f) (lines f) 0 st0) as (b1 & st1 & e1 & Hscan & Hw1).
    destruct e1 as [x |].
    + exists b1, st1, (Some x). split; [| exact Hw1].
      intros cs. cbn [scan_files].
      change {| content := []; dest := None; cells := cells (set_cells st cs);
                written := written (set_cells st cs);
                printed := printed (set_cells st cs) ++ [text " processing " ++ path f] |}
        with (set_cells st0 cs).
      now rewrite Hscan.
    + destruct (IH st1) as (b2 & st' & e & Hrest & Hw2).
      exists (b1 ++ b2), st', e. split.
      * intros cs. cbn [scan_files].
        change {| content := []; dest := None; cells := cells (set_cells st cs);
                  written := written (set_cells st cs);
                  printed := printed (set_cells st cs) ++ [text " processing " ++ path f] |}
          with (set_cells st0 cs).
        rewrite Hscan, Hrest, map_map. do 2 f_equal.
        apply map_ext. intros c. now rewrite load_all_app.
      * rewrite Hw2, Hw1, map_app, app_assoc. reflexivity.
Qed.

(** A cell that has loaded the file [d] keeps its load line through the
    blocks of files that do not take that line for theirs. *)
Lemma load_all_loaded (blocks : list (str * list str)) (d : str) (b : list str) (m : Meta) :
  (forall d', In d' (map fst blocks) ->
     endswith (loaded d) (text "%load " ++ d' ++ newline)
     || endswith (loaded d) (text "%load " ++ d') = true -> d' = d) ->
  exists b', load_all blocks {| source := loaded d :: b; meta := m |} =
             {| source := loaded d :: b'; meta := m |}.
Proof.
  revert b. induction blocks as [| [d1 b1] blocks IH]; intros b Hown.
  - now exists b.
  - unfold load_all. cbn [fold_left fst snd]. unfold load at 2. unfold asks.
    cbn [source meta].
    destruct (endswith (loaded d) (text "%load " ++ d1 ++ newline)
              || endswith (loaded d) (text "%load " ++ d1)) eqn:Hasks.
    + assert (d1 = d) as -> by (apply Hown; [now left | exact Hasks]).
      apply (IH b1). intros d' Hin. apply Hown. now right.
    + apply (IH b). intros d' Hin. apply Hown. now right.
Qed.

(** Loading once more the blocks of a call changes nothing. *)
Lemma load_all_twice (blocks : list (str * list str)) (c : Cell Meta) :
  own_loads (map fst blocks) ->
  load_all blocks (load_all blocks c) = load_all blocks c.
Proof.
  induction blocks as [| [d b] blocks IH] using rev_ind; intros Hown; [reflexivity |].
  assert (Hown' : own_loads (map fst blocks)).
  { intros d1 d2 H1 H2. apply Hown; rewrite map_app; apply in_or_app; now left. }
  assert (Hlast : In d (map fst (blocks ++ [(d, b)])))
    by (rewrite map_app; apply in_or_app; right; now left).
  rewrite !load_all_app. cbn [load_all fold_left fst snd].
  specialize (IH Hown'). remember (load_all blocks c) as c' eqn:Ec' in *.
  unfold load at 2 3. destruct (asks d c') eqn:Hasks.
  - destruct (load_all_loaded blocks d b (meta c')) as (b' & ->).
    + intros d' Hin. apply Hown; [exact Hlast |].
      rewrite map_app. apply in_or_app. now left.
    + unfold load. now rewrite asks_loaded.
  - rewrite IH. unfold load. now rewrite Hasks.
Qed.

(** X14. A second call on the notebook the first call has written back, with
    the same files, writes the same files and leaves the notebook as it is,
    provided no load line of a written file is taken by another written file
    for its own. *)
Theorem generate_twice (ipynb folder : str) (cells0 cells1 : list (Cell Meta))
        (files : list File) :
  notebook (generate generated ipynb folder cells0 files) = inr cells1 ->
  own_loads (map fst (files_written (generate generated ipynb folder cells0 files))) ->
  generate generated ipynb folder cells1 files =
  generate generated ipynb folder cells0 files.
Proof.
  unfold generate.
  set (start := {| content := []; dest := None; cells := @nil (Cell Meta);
                   written := [];
                   printed := [text "processing " ++ ipynb
                               ++ text " with scripts in " ++ folder] |}).
  destruct (scan_files_blocks files start) as (blocks & st' & e & Hscan & Hw).
  change {| content := []; dest := None; cells := cells0; written := [];
            printed := [text "processing " ++ ipynb ++ text " with scripts in " ++ folder] |}
    with (set_cells start cells0).
  change {| content := []; dest := None; cells := cells1; written := [];
            printed := [text "processing " ++ ipynb ++ text " with scripts in " ++ folder] |}
    with (set_cells start cells1).
  rewrite !Hscan. destruct e as [x |]; cbn [notebook files_written set_cells written cells];
    [discriminate |].
  intros Hnb Hown. injection Hnb as <-.
  rewrite Hw in Hown. cbn [written start app] in Hown.
  rewrite map_map in Hown. cbn [file_of fst] in Hown.
  rewrite map_map. do 2 f_equal.
  apply map_ext. intros c. apply load_all_twice. exact Hown.
Qed.

(** *** A loaded cell and the other files *)

Lemma startswith_split (s p : str) :
  startswith s p = true -> exists q, s = p ++ q.
Proof.
  revert s. induction p as [| a p IH]; intros s H.
  - now exists s.
  - destruct s as [| b s]; [discriminate |]. cbn in H.
    apply andb_true_iff in H. destruct H as [Hab Hrest].
    apply N.eqb_eq in Hab. subst b.
    destruct (IH s Hrest) as (q & ->). now exists q.
Qed.

Lemma endswith_split (s p : str) :
  endswith s p = true -> exists q, s = q ++ p.
Proof.
  unfold endswith. intros H. destruct (startswith_split _ _ H) as (q & E).
  exists (rev q). apply (f_equal (@rev N)) in E.
  now rewrite rev_involutive, rev_app_distr, rev_involutive in E.
Qed.

(** A list is cut at the last occurrence of an element in one way only. *)
Lemma last_occurrence {A : Type} (x : A) (l1 l2 r1 r2 : list A) :
  ~ In x r1 -> ~ In x r2 -> l1 ++ x :: r1 = l2 ++ x :: r2 -> r1 = r2.
Proof.
  revert l2. induction l1 as [| a l1 IH]; intros [| b l2] H1 H2 E; cbn in E.
  - now injection E.
  - injection E as _ E. exfalso. apply H1. rewrite E. apply in_or_app. right. now left.
  - injection E as _ E. exfalso. apply H2. rewrite <- E. apply in_or_app. right. now left.
  - injection E as _ E. now apply (IH l2).
Qed.

Lemma in_app_text (x : N) (a d b : str) :
  ~ In x a -> ~ In x d -> ~ In x b -> ~ In x (a ++ d ++ b).
Proof.
  intros Ha Hd Hb H. apply in_app_or in H. destruct H as [H | H]; [auto |].
  apply in_app_or in H. destruct H; auto.
Qed.

Lemma not_in_text (x : N) (s : string) :
  existsb (N.eqb x) (text s) = false -> ~ In x (text s).
Proof.
  intros H Hin. assert (E : existsb (N.eqb x) (text s) = true).
  { apply existsb_exists. exists x. split; [exact Hin | apply N.eqb_refl]. }
  congruence.
Qed.

(** X15. Among the paths that hold no percent sign and no line feed, a cell
    that has loaded a file is asked for by that file and by no other. *)
Theorem loaded_cell_asks (d d' : str) (body : list str) (m : Meta) :
  ~ In 37%N d -> ~ In 10%N d -> ~ In 37%N d' -> ~ In 10%N d' ->
  asks d' {| source := loaded d :: body; meta := m |} = true <-> d' = d.
Proof.
  intros Hd37 Hd10 Hd'37 Hd'10. split; [| intros ->; apply asks_loaded].
  unfold asks. cbn [source]. intros H. apply orb_true_iff in H.
  assert (Hload : ~ In 37%N (text "load ")) by (apply not_in_text; reflexivity).
  assert (Hnl : ~ In 37%N newline) by (cbn; intros [H0 | []]; discriminate).
  assert (Hnil : ~ In 37%N (@nil N)) by (intros []).
  assert (Hcut : forall q tail,
            ~ In 37%N tail ->
            loaded d = q ++ text "%load " ++ d' ++ tail ->
            text "load " ++ d ++ newline = text "load " ++ d' ++ tail).
  { intros q tail Htail E.
    apply (last_occurrence 37%N (text "# ") q).
    - now apply in_app_text.
    - now apply in_app_text.
    - exact E. }
  destruct H as [H | H]; apply endswith_split in H; destruct H as (q & E).
  - apply (Hcut q newline Hnl) in E. apply app_inv_head in E.
    apply app_inv_tail in E. now symmetry.
  - rewrite <- (app_nil_r d') in E. apply (Hcut q [] Hnil) in E.
    apply app_inv_head in E. rewrite app_nil_r in E.
    exfalso. apply Hd'10. rewrite <- E. apply in_or_app. right. now left.
Qed.

End GenerateProperties.

(** *** The properties on the sample folder *)


Lemma main_unused_vectors_witness :
  (2 <= 2)%Z /\ 0 = 0 /\ 1 <> 0 /\
  exists w,
    main (P := Slider.P) 1 [0] 2 0 1 Slider.returns 0%nat = Some (w, Some RuntimeError) /\
    stdout w = [diagnostic].
Proof.
  split; [lia |]. split; [reflexivity |].
  assert (H1 : 1 <> 0) by lra.
  split; [exact H1 |].
  destruct (main_unused_vectors (P := Slider.P) 1 [0] 2 0 1 Slider.returns 0%nat
              ltac:(lia) eq_refl H1) as (o & var_qs & w & _ & Hmain & _ & Hout).
  exists w. split; [exact Hmain | exact Hout].
Defined.

Lemma problem_section_twice_witness :
  exists g1 g2,
    problem_section (P := Slider.P) 1 [0] 2 (1 / 10) 1
      {| instances := 0; global_opti := None; global_var_qs := None;
         global_totalcost := None |} = Some g1 /\
    problem_section (P := Slider.P) 1 [0] 2 (1 / 10) 1 g1 = Some g2 /\
    forall x, totalcost_at g2 x = totalcost_at g1 x.
Proof.
  destruct (build_ok (P := Slider.P) 1 [0] 2 (1 / 10) 1 0%nat ltac:(lia))
    as (totalcost & Hb & _).
  assert (H1 : exists g1,
            problem_section (P := Slider.P) 1 [0] 2 (1 / 10) 1
              {| instances := 0; global_opti := None; global_var_qs := None;
                 global_totalcost := None |} = Some g1).
  { rewrite problem_section_build. cbn [instances]. rewrite Hb.
    eexists. reflexivity. }
  destruct H1 as (g1 & H1).
  destruct (problem_section_twice (P := Slider.P) 1 [0] 2 (1 / 10) 1 _ g1 H1)
    as (g2 & o1 & o2 & H2 & _ & _ & _ & _ & _ & _ & Hcost).
  exists g1, g2. split; [exact H1 |]. split; [exact H2 |].
  intros x. apply Hcost.
Defined.



Lemma generate_unclosed_witness :
  forallb Generate.is_plain Sample.before = true /\
  Generate.is_open Sample.opening = true /\
  nth_error (PyStr.split Sample.opening) 2 = Some (PyStr.text "1") /\
  forallb Generate.is_plain Sample.body = true /\
  Generate.notebook
    (Generate.generate Sample.generated (PyStr.text "0_intro.ipynb") (PyStr.text "tp0")
       Sample.cells
       [{| Generate.path := PyStr.text "tp0/traj.py"; Generate.stem := PyStr.text "traj";
           Generate.lines := Sample.before ++ Sample.opening :: Sample.body |}]) =
  inr Sample.cells.
Proof.
  repeat (split; [reflexivity |]).
  exact (f_equal Generate.notebook
           (generate_unclosed Sample.generated (PyStr.text "0_intro.ipynb") (PyStr.text "tp0")
              Sample.cells (PyStr.text "tp0/traj.py") (PyStr.text "traj")
              Sample.before Sample.body Sample.opening
              (PyStr.text "1") eq_refl eq_refl eq_refl eq_refl)).
Defined.

Lemma generate_open_twice_witness :
  forallb Generate.is_plain Sample.before = true /\
  Generate.is_open Sample.opening = true /\
  nth_error (PyStr.split Sample.opening) 2 = Some (PyStr.text "1") /\
  forallb Generate.is_plain Sample.body = true /\
  Generate.notebook
    (Generate.generate Sample.generated (PyStr.text "0_intro.ipynb") (PyStr.text "tp0")
       Sample.cells
       [{| Generate.path := PyStr.text "tp0/traj.py"; Generate.stem := PyStr.text "traj";
           Generate.lines :=
             Sample.before ++ Sample.opening :: Sample.body ++ Sample.opening :: Sample.rest |}]) =
  inl (Generate.SyntaxError Generate.open_twice 5).
Proof.
  repeat (split; [reflexivity |]).
  exact (f_equal Generate.notebook
           (generate_open_twice Sample.generated (PyStr.text "0_intro.ipynb")
              (PyStr.text "tp0") Sample.cells (PyStr.text "tp0/traj.py") (PyStr.text "traj")
              Sample.before Sample.body Sample.rest Sample.opening Sample.opening
              (PyStr.text "1") eq_refl eq_refl eq_refl eq_refl eq_refl)).
Defined.


Lemma generate_unnamed_witness :
  forallb Generate.is_plain Sample.before = true /\
  Generate.is_open Sample.unnamed = true /\
  (length (PyStr.split Sample.unnamed) <= 2)%nat /\
  Generate.notebook
    (Generate.generate Sample.generated (PyStr.text "0_intro.ipynb") (PyStr.text "tp0")
       Sample.cells
       [{| Generate.path := PyStr.text "tp0/traj.py"; Generate.stem := PyStr.text "traj";
           Generate.lines := Sample.before ++ Sample.unnamed :: Sample.body |}]) =
  inl Generate.IndexError.
Proof.
  split; [reflexivity |]. split; [reflexivity |].
  assert (Hwords : (length (PyStr.split Sample.unnamed) <= 2)%nat)
    by (vm_compute; lia).
  split; [exact Hwords |].
  exact (f_equal Generate.notebook
           (generate_unnamed Sample.generated (PyStr.text "0_intro.ipynb") (PyStr.text "tp0")
              Sample.cells (PyStr.text "tp0/traj.py") (PyStr.text "traj")
              Sample.before Sample.body Sample.unnamed eq_refl eq_refl Hwords)).
Defined.

Lemma generate_cells_match_disk_witness :
  exists cells1,
    Generate.notebook
      (Generate.generate Sample.generated (PyStr.text "0_intro.ipynb") (PyStr.text "tp0")
         Sample.cells [Sample.file]) = inr cells1 /\
    length cells1 = length Sample.cells /\
    map Generate.meta cells1 = map Generate.meta Sample.cells.
Proof.
  eexists. split; [vm_compute; reflexivity |].
  match goal with |- length ?c = _ /\ _ =>
    destruct (generate_cells_match_disk Sample.generated (PyStr.text "0_intro.ipynb")
                (PyStr.text "tp0") Sample.cells c [Sample.file] eq_refl)
      as (Hlen & Hmeta & _)
  end.
  split; [exact Hlen | exact Hmeta].
Defined.

Lemma generate_twice_witness :
  exists cells1,
    Generate.notebook
      (Generate.generate Sample.generated (PyStr.text "0_intro.ipynb") (PyStr.text "tp0")
         Sample.cells [Sample.file]) = inr cells1 /\
    Generate.own_loads
      (map fst (Generate.files_written
                  (Generate.generate Sample.generated (PyStr.text "0_intro.ipynb")
                     (PyStr.text "tp0") Sample.cells [Sample.file]))) /\
    Generate.generate Sample.generated (PyStr.text "0_intro.ipynb") (PyStr.text "tp0")
      cells1 [Sample.file] =
    Generate.generate Sample.generated (PyStr.text "0_intro.ipynb") (PyStr.text "tp0")
      Sample.cells [Sample.file].
Proof.
  eexists. split; [vm_compute; reflexivity |].
  assert (Hown : Generate.own_loads
            (map fst (Generate.files_written
                        (Generate.generate Sample.generated (PyStr.text "0_intro.ipynb")
                           (PyStr.text "tp0") Sample.cells [Sample.file])))).
  { intros d d' [<- | []] [<- | []] _. reflexivity. }
  split; [exact Hown |].
  exact (generate_twice Sample.generated (PyStr.text "0_intro.ipynb") (PyStr.text "tp0")
           Sample.cells _ [Sample.file] eq_refl Hown).
Defined.

Lemma loaded_cell_asks_witness :
  ~ In 37%N (PyStr.text "tp0/generated/traj_1") /\
  ~ In 10%N (PyStr.text "tp0/generated/traj_1") /\
  ~ In 37%N (PyStr.text "tp0/generated/traj_2") /\
  ~ In 10%N (PyStr.text "tp0/generated/traj_2") /\
  (Generate.asks (PyStr.text "tp0/generated/traj_2")
     {| Generate.source := Generate.loaded (PyStr.text "tp0/generated/traj_1") :: Sample.body;
        Generate.meta := tt |} = true <->
   PyStr.text "tp0/generated/traj_2" = PyStr.text "tp0/generated/traj_1").
Proof.
  assert (H1 : ~ In 37%N (PyStr.text "tp0/generated/traj_1"))
    by (apply not_in_text; reflexivity).
  assert (H2 : ~ In 10%N (PyStr.text "tp0/generated/traj_1"))
    by (apply not_in_text; reflexivity).
  assert (H3 : ~ In 37%N (PyStr.text "tp0/generated/traj_2"))
    by (apply not_in_text; reflexivity).
  assert (H4 : ~ In 10%N (PyStr.text "tp0/generated/traj_2"))
    by (apply not_in_text; reflexivity).
  repeat (split; [assumption |]).
  exact (loaded_cell_asks (PyStr.text "tp0/generated/traj_1")
           (PyStr.text "tp0/generated/traj_2") Sample.body tt H1 H2 H3 H4).
Defined.
